(** * OPi.GPIO: a shallow embedding of [GPIO.py] and [pin_mappings.py]

    The two Python modules are translated function by function.  Module-level
    globals ([_gpio_warnings], [_mode], [_exports], [_pin_map]) become one
    record that is threaded through a state-and-exception monad; every call
    into the absent collaborators [OPi.sysfs] and [OPi.event] and every
    [warnings.warn] is appended to a log, and the answer of a collaborator is
    supplied by an environment (a function of the calls answered so far).
    Python numbers are carried by their exact rational value; arithmetic is
    that of Python 3 ([/] is true division, [round] rounds half to even) on
    IEEE-754 binary64 floats, round to nearest, ties to even.  Assertions
    are enabled (no [-O]). *)

From Stdlib Require Import ZArith QArith Qround Qpower Qabs Lia Lqa List Bool String.
From Stdlib Require Import Floats.
Import ListNotations.

Set Implicit Arguments.
Set Warnings "-register-all".

(* ================================================================== *)
(** ** Python floats: binary64 over the rationals *)

Module Float64.

Open Scope Q_scope.

Definition pow2 (k : Z) : Q := (2 # 1) ^ k.

(** The integer [k] with [2^k <= x < 2^(k+1)], for [0 < x]. *)
Definition ilog2 (x : Q) : Z :=
  let k := (Z.log2 (Qnum x) - Z.log2 (Zpos (Qden x)))%Z in
  if Qle_bool (pow2 k) x then k else (k - 1)%Z.

(** Nearest integer, ties to the even one: [int(round(x, 0))] of Python 3. *)
Definition round_half_even (x : Q) : Z :=
  let n := Qfloor x in
  match Qcompare (x - inject_Z n) (1 # 2) with
  | Lt => n
  | Gt => (n + 1)%Z
  | Eq => if Z.even n then n else (n + 1)%Z
  end.

(** Exponent of the last place of binary64 at [x]: 53 significant bits,
    and never below the subnormal spacing [2^-1074]. *)
Definition fexp (x : Q) : Z := Z.max (ilog2 x - 52) (-1074).

Definition round_pos (x : Q) : Q :=
  let e := fexp x in
  Qred (inject_Z (round_half_even (x / pow2 e)) * pow2 e).

(** Rounding of an exact result to the binary64 grid (exponent unbounded
    above). *)
Definition b64_round (x : Q) : Q :=
  match Qnum x with
  | Z0 => 0
  | Zpos _ => round_pos x
  | Zneg _ => Qred (- round_pos (- x))
  end.

(** The largest finite binary64 number, [(2^53 - 1) * 2^971]. *)
Definition max_float : Q := inject_Z ((2 ^ 53 - 1) * 2 ^ 971).

(** One float operation whose exact result is [x]: [None] is an infinity. *)
Definition b64 (x : Q) : option Q :=
  let r := b64_round x in
  if Qle_bool (Qabs r) max_float then Some r else None.

(** Reading of a hardware double, to compare the model with the kernel's
    primitive floats on samples. *)
Definition SF2Q (f : spec_float) : option Q :=
  match f with
  | S754_zero _ => Some 0
  | S754_finite s m e =>
      Some (Qred ((if s then - (1) else 1) * inject_Z (Zpos m) * pow2 e))
  | _ => None
  end.

Definition hardware (f : float) : option Q := SF2Q (Prim2SF f).

End Float64.

(* ================================================================== *)
(** ** Python values, exceptions and the collaborators' interface *)

(** A channel is an integer or a custom key. *)
Inductive channel : Type :=
| ChInt (n : Z)
| ChStr (s : string).

Definition channel_eqb (a b : channel) : bool :=
  match a, b with
  | ChInt x, ChInt y => Z.eqb x y
  | ChStr x, ChStr y => String.eqb x y
  | _, _ => false
  end.

(** The [channel] argument of [setup], [output] and [cleanup]: one channel
    or a Python [list] (whose items are passed to the same function again). *)
Inductive chan_arg : Type :=
| One (c : channel)
| Many (l : list chan_arg).

(** OPi.constants (numbering schemes, directions, triggers, pulls). *)
Inductive mode : Type := BCM | BOARD | SUNXI | CUSTOM.
Inductive direction : Type := IN | OUT.
Inductive trigger : Type := NONE | RISING | FALLING | BOTH.
Inductive pull : Type := PUD_UP | PUD_DOWN | PUD_OFF.

Definition mode_eqb (a b : mode) : bool :=
  match a, b with
  | BCM, BCM | BOARD, BOARD | SUNXI, SUNXI | CUSTOM, CUSTOM => true
  | _, _ => false
  end.

Definition direction_eqb (a b : direction) : bool :=
  match a, b with
  | IN, IN | OUT, OUT => true
  | _, _ => false
  end.

(** Values handed to [sysfs.output]: a level, or a tuple of values. *)
Inductive pyval : Type :=
| VInt (n : Z)
| VBool (b : bool)
| VTuple (l : list pyval).

Definition LOW : pyval := VInt 0.
Definition HIGH : pyval := VInt 1.

(** What a collaborator returns. *)
Inductive retval : Type :=
| RNone
| RInt (n : Z)
| RBool (b : bool).

(** Messages of the [RuntimeError]s raised in GPIO.py. *)
Inductive runtime_msg : Type :=
| ModeNotSet                                    (* "Mode has not been set" *)
| NotConfigured (c : channel)                   (* "Channel {0} is not configured" *)
| ConfiguredFor (c : channel) (d : direction)   (* "Channel {0} is configured for {1}" *)
| AlreadyConfigured (c : channel).              (* "Channel {0} is already configured" *)

Inductive key : Type :=
| KMode (m : mode)
| KChannel (c : channel).

Inductive exn : Type :=
| RuntimeError (m : runtime_msg)
| AssertionError
| KeyError (k : key)
| OSError (errno : Z)
| ZeroDivisionError
| OverflowError
| TypeError
| DutyCycleOutOfBounds (p : Q).   (* Exception("Duty cycle must br between 0 and 100 ...") *)

(** A registered callback: the user's callable (named by a number) closed
    over the channel, as [__wrap] builds it. *)
Definition callback : Type := nat.
Definition wrapped : Type := (callback * channel)%type.

(** Calls into [OPi.sysfs] and [OPi.event]. *)
Inductive call : Type :=
| SysExport (pin : Z)
| SysUnexport (pin : Z)
| SysDirection (pin : Z) (d : direction)
| SysInput (pin : Z)
| SysOutput (pin : Z) (v : pyval)
| EvBlockingWaitForEdge (pin : Z) (t : trigger) (timeout : Z)
| EvAddEdgeDetect (pin : Z) (t : trigger) (cb : option wrapped)
| EvRemoveEdgeDetect (pin : Z)
| EvAddEdgeCallback (pin : Z) (cb : option wrapped)
| EvEdgeDetected (pin : Z)
| EvCleanup (pin : Z)
| PWM_Export (chip pin : Z)
| PWM_Unexport (chip pin : Z)
| PWM_Polarity (chip pin : Z) (invert : bool)
| PWM_Enable (chip pin : Z)
| PWM_Disable (chip pin : Z)
| PWM_Frequency (chip pin : Z) (hz : Q)
| PWM_Period (chip pin : Z) (ns : Z)
| PWM_Duty_Cycle (chip pin : Z) (ns : Z)
| PWM_Duty_Cycle_Percent (chip pin : Z) (percent : Q).

Inductive response : Type :=
| Returns (v : retval)
| Raises (e : exn).

(** Advisory warnings ([warnings.warn]). *)
Inductive warning : Type :=
| PullUpDownUnsupported          (* "Pull up/down setting are not (yet) fully supported, ..." *)
| ChannelInUse (c : channel)     (* "Channel {0} is already in use, continuing anyway. ..." *)
| BouncetimeUnsupported          (* "bouncetime is not (yet) fully supported, ..." *)
| PwmPinInUse (pin : Z).         (* "Pin {0} is already in use, continuing anyway." *)

Inductive event : Type :=
| Io (c : call) (r : response)
| Warn (w : warning).

(** The collaborator calls of a log, without the warnings. *)
Fixpoint io_history (l : list event) : list (call * response) :=
  match l with
  | [] => []
  | Io c r :: t => (c, r) :: io_history t
  | Warn _ :: t => io_history t
  end.

Fixpoint warnings_of (l : list event) : list warning :=
  match l with
  | [] => []
  | Io _ _ :: t => warnings_of t
  | Warn w :: t => w :: warnings_of t
  end.

Definition calls_of (l : list event) : list call := map fst (io_history l).

(** The outside world: its answer to a call, given the calls answered so far. *)
Definition environment : Type := list (call * response) -> call -> response.

(* ================================================================== *)
(** ** Insertion-ordered dictionaries *)

Section Dict.
Variables (K V : Type) (eqb : K -> K -> bool).

Definition dict : Type := list (K * V).

Fixpoint dict_get (d : dict) (k : K) : option V :=
  match d with
  | [] => None
  | (k', v) :: t => if eqb k' k then Some v else dict_get t k
  end.

Definition dict_mem (d : dict) (k : K) : bool :=
  match dict_get d k with Some _ => true | None => false end.

(** [d[k] = v]: in place when the key exists, else at the end. *)
Fixpoint dict_set (d : dict) (k : K) (v : V) : dict :=
  match d with
  | [] => [(k, v)]
  | (k', v') :: t => if eqb k' k then (k', v) :: t else (k', v') :: dict_set t k v
  end.

(** [del d[k]] *)
Fixpoint dict_del (d : dict) (k : K) : dict :=
  match d with
  | [] => []
  | (k', v') :: t => if eqb k' k then dict_del t k else (k', v') :: dict_del t k
  end.

Definition dict_keys (d : dict) : list K := map fst d.
End Dict.

(* ================================================================== *)
(** ** The state-and-exception monad *)

Inductive result (A : Type) : Type :=
| Ok (a : A)
| Raise (e : exn).
Arguments Raise {A} e.

Record world (S : Type) : Type := World { st : S; log : list event }.

Definition M (S A : Type) : Type := world S -> result A * world S.

Definition ret {S A} (a : A) : M S A := fun w => (Ok a, w).

Definition bind {S A B} (m : M S A) (f : A -> M S B) : M S B :=
  fun w => match m w with
           | (Ok a, w') => f a w'
           | (Raise e, w') => (Raise e, w')
           end.

Definition raise {S A} (e : exn) : M S A := fun w => (Raise e, w).

Definition get {S} : M S S := fun w => (Ok (st w), w).

Definition put {S} (s : S) : M S unit := fun w => (Ok tt, World s (log w)).

Definition warn {S} (x : warning) : M S unit :=
  fun w => (Ok tt, World (st w) (log w ++ [Warn x])).

(** [try: m  except (OSError, IOError) as e: h e.errno]; any other
    exception passes through. *)
Definition try_except_OSError {S A} (m : M S A) (h : Z -> M S A) : M S A :=
  fun w => match m w with
           | (Raise (OSError errno), w') => h errno w'
           | other => other
           end.

Definition lift_result {S A} (r : result A) : M S A := fun w => (r, w).

Declare Scope py_scope.
Delimit Scope py_scope with py.
Notation "x <- m ;; k" := (bind m (fun x => k))
  (at level 61, m at next level, right associativity) : py_scope.
Notation "m ;; k" := (bind m (fun _ => k))
  (at level 61, right associativity) : py_scope.
Open Scope py_scope.

(** [for x in l: body x] *)
Fixpoint for_each {S X} (body : X -> M S unit) (l : list X) : M S unit :=
  match l with
  | [] => ret tt
  | x :: t => body x ;; for_each body t
  end.

Definition when {S} (b : bool) (m : M S unit) : M S unit :=
  if b then m else ret tt.

(* ================================================================== *)
(** ** pin_mappings.py *)

(** [_pin_map[BOARD]]: physical pin to kernel GPIO pin. *)
Definition BOARD_pins : dict channel Z :=
  [ (ChInt 3, 47); (ChInt 5, 46); (ChInt 7, 54); (ChInt 8, 131);
    (ChInt 10, 132); (ChInt 12, 29); (ChInt 11, 138); (ChInt 13, 139);
    (ChInt 15, 28); (ChInt 16, 59); (ChInt 18, 58); (ChInt 19, 49);
    (ChInt 21, 48); (ChInt 22, 92); (ChInt 24, 52); (ChInt 23, 50);
    (ChInt 26, 35) ]%Z.

(** The globals of both modules.  [_pin_map] has the two entries [BOARD]
    (never assigned to) and [CUSTOM] (replaced by [set_custom_pin_mappings]),
    so only the latter is state. *)
Record gpio : Type := Gpio {
  _gpio_warnings : bool;
  _mode : option mode;
  _exports : dict channel direction;
  _pin_map_CUSTOM : dict channel Z
}.

(** The globals as the modules are loaded. *)
Definition gpio_init : gpio := Gpio true None [] [].
Definition world_init : world gpio := World gpio_init [].

Definition _pin_map (s : gpio) (m : mode) : option (dict channel Z) :=
  match m with
  | BOARD => Some BOARD_pins
  | CUSTOM => Some (_pin_map_CUSTOM s)
  | BCM | SUNXI => None
  end.

Definition set_custom_pin_mappings (mappings : dict channel Z) : M gpio unit :=
  s <- get ;;
  put (Gpio (_gpio_warnings s) (_mode s) (_exports s) mappings).

(** [x in l] for a numbering scheme (or [None]). *)
Definition mode_in (m : option mode) (l : list mode) : bool :=
  match m with
  | Some x => existsb (mode_eqb x) l
  | None => false
  end.

Definition get_gpio_pin (m : option mode) (c : channel) : M gpio Z :=
  s <- get ;;
  if mode_in m [BOARD] then
    match m with
    | Some m' =>
        match _pin_map s m' with
        | Some d =>
            match dict_get channel_eqb d c with
            | Some p => ret p
            | None => raise (KeyError (KChannel c))
            end
        | None => raise (KeyError (KMode m'))
        end
    | None => raise AssertionError
    end
  else raise AssertionError.

(* ================================================================== *)
(** ** GPIO.py *)

(** The argument of [setmode]: a scheme constant, or an object with
    [__getitem__] (a custom mapping). *)
Inductive mode_arg : Type :=
| Scheme (m : mode)
| Mapping (d : dict channel Z).

Section GPIO.

Variable env : environment.

(** A call into [sysfs] or [event]: logged with the environment's answer. *)
Definition io {S} (c : call) : M S retval :=
  fun w =>
    let r := env (io_history (log w)) c in
    let w' := World (st w) (log w ++ [Io c r]) in
    match r with
    | Returns v => (Ok v, w')
    | Raises e => (Raise e, w')
    end.

Definition _check_configured (c : channel) (d : option direction) : M gpio unit :=
  s <- get ;;
  match dict_get channel_eqb (_exports s) c with
  | None => raise (RuntimeError (NotConfigured c))
  | Some configured =>
      match d with
      | Some d' =>
          if negb (direction_eqb d' configured)
          then raise (RuntimeError (ConfiguredFor c configured))
          else ret tt
      | None => ret tt
      end
  end.

Definition getmode : M gpio (option mode) :=
  s <- get ;; ret (_mode s).

Definition set_mode (m : option mode) : M gpio unit :=
  s <- get ;;
  put (Gpio (_gpio_warnings s) m (_exports s) (_pin_map_CUSTOM s)).

Definition setmode (a : mode_arg) : M gpio unit :=
  m <- match a with
       | Mapping d => set_custom_pin_mappings d ;; ret CUSTOM
       | Scheme m => ret m
       end ;;
  if mode_in (Some m) [BCM; BOARD; SUNXI; CUSTOM]
  then set_mode (Some m)
  else raise AssertionError.

Definition setwarnings (enabled : bool) : M gpio unit :=
  s <- get ;;
  put (Gpio enabled (_mode s) (_exports s) (_pin_map_CUSTOM s)).

Definition set_export (c : channel) (d : direction) : M gpio unit :=
  s <- get ;;
  put (Gpio (_gpio_warnings s) (_mode s)
         (dict_set channel_eqb (_exports s) c d) (_pin_map_CUSTOM s)).

Definition del_export (c : channel) : M gpio unit :=
  s <- get ;;
  put (Gpio (_gpio_warnings s) (_mode s)
         (dict_del channel_eqb (_exports s) c) (_pin_map_CUSTOM s)).

Definition is_some {A} (o : option A) : bool :=
  match o with Some _ => true | None => false end.

Fixpoint setup (channel : chan_arg) (dir : direction)
    (initial : option pyval) (pull_up_down : option pull) {struct channel}
    : M gpio unit :=
  s <- get ;;
  match _mode s with
  | None => raise (RuntimeError ModeNotSet)
  | Some _ =>
      when (is_some pull_up_down)
        (when (_gpio_warnings s) (warn PullUpDownUnsupported)) ;;
      match channel with
      | Many l =>
          for_each (fun ch => setup ch dir initial None) l
      | One c =>
          if dict_mem channel_eqb (_exports s) c
          then raise (RuntimeError (AlreadyConfigured c))
          else
            pin <- get_gpio_pin (_mode s) c ;;
            try_except_OSError
              (io (SysExport pin) ;; ret tt)
              (fun errno =>
                 if (errno =? 16)%Z then
                   when (_gpio_warnings s) (warn (ChannelInUse c)) ;;
                   io (SysUnexport pin) ;;
                   io (SysExport pin) ;;
                   ret tt
                 else raise (OSError errno)) ;;
            io (SysDirection pin dir) ;;
            set_export c dir ;;
            match dir, initial with
            | OUT, Some v => io (SysOutput pin v) ;; ret tt
            | _, _ => ret tt
            end
      end
  end.

Definition input (c : channel) : M gpio retval :=
  _check_configured c None ;;
  s <- get ;;
  pin <- get_gpio_pin (_mode s) c ;;
  io (SysInput pin).

Fixpoint output (channel : chan_arg) (state : pyval) {struct channel}
    : M gpio retval :=
  match channel with
  | Many l =>
      for_each (fun ch => output ch state ;; ret tt) l ;; ret RNone
  | One c =>
      _check_configured c (Some OUT) ;;
      s <- get ;;
      pin <- get_gpio_pin (_mode s) c ;;
      io (SysOutput pin state)
  end.

Definition wait_for_edge (c : channel) (t : trigger) (timeout : Z)
    : M gpio (option channel) :=
  _check_configured c (Some IN) ;;
  s <- get ;;
  pin <- get_gpio_pin (_mode s) c ;;
  r <- io (EvBlockingWaitForEdge pin t timeout) ;;
  match r with
  | RNone => ret None
  | _ => ret (Some c)
  end.

Definition __wrap (cb : option callback) (c : channel) : option wrapped :=
  match cb with
  | Some f => Some (f, c)
  | None => None
  end.

Definition add_event_detect (c : channel) (t : trigger)
    (cb : option callback) (bouncetime : option Z) : M gpio unit :=
  _check_configured c (Some IN) ;;
  s <- get ;;
  when (is_some bouncetime)
    (when (_gpio_warnings s) (warn BouncetimeUnsupported)) ;;
  pin <- get_gpio_pin (_mode s) c ;;
  io (EvAddEdgeDetect pin t (__wrap cb c)) ;;
  ret tt.

Definition remove_event_detect (c : channel) : M gpio unit :=
  _check_configured c (Some IN) ;;
  s <- get ;;
  pin <- get_gpio_pin (_mode s) c ;;
  io (EvRemoveEdgeDetect pin) ;;
  ret tt.

Definition add_event_callback (c : channel) (cb : option callback)
    (bouncetime : option Z) : M gpio unit :=
  _check_configured c (Some IN) ;;
  s <- get ;;
  when (is_some bouncetime)
    (when (_gpio_warnings s) (warn BouncetimeUnsupported)) ;;
  pin <- get_gpio_pin (_mode s) c ;;
  io (EvAddEdgeCallback pin (__wrap cb c)) ;;
  ret tt.

Definition event_detected (c : channel) : M gpio retval :=
  _check_configured c (Some IN) ;;
  s <- get ;;
  pin <- get_gpio_pin (_mode s) c ;;
  io (EvEdgeDetected pin).

(** [cleanup(channel)] for a list or a single channel (the [elif] and
    [else] branches). *)
Fixpoint cleanup_channel (channel : chan_arg) {struct channel} : M gpio unit :=
  match channel with
  | Many l => for_each cleanup_channel l
  | One c =>
      _check_configured c None ;;
      s <- get ;;
      pin <- get_gpio_pin (_mode s) c ;;
      io (EvCleanup pin) ;;
      io (SysUnexport pin) ;;
      del_export c
  end.

Definition cleanup (channel : option chan_arg) : M gpio unit :=
  match channel with
  | None =>
      s <- get ;;
      cleanup_channel (Many (map One (dict_keys (_exports s)))) ;;
      setwarnings true ;;
      set_mode None
  | Some a => cleanup_channel a
  end.

End GPIO.

(* ================================================================== *)
(** ** class PWM *)

Module PWM.

Record t : Type := Make {
  chip : Z;
  pin : Z;
  frequency : Q;
  duty_cycle_percent : Q;
  invert_polarity : bool
}.

(** [a / b] on Python numbers.  An overflowing operation raises
    [OverflowError] at once: a division of ints does so in Python, and a
    float operation yields an infinity on which the [int(round(...))] that
    follows raises [OverflowError], with no effect in between. *)
Definition true_div (a b : Q) : result Q :=
  if Qeq_bool b 0 then Raise ZeroDivisionError
  else match Float64.b64 (a / b) with
       | Some r => Ok r
       | None => Raise OverflowError
       end.

Definition float_mul (a b : Q) : result Q :=
  match Float64.b64 (a * b) with
  | Some r => Ok r
  | None => Raise OverflowError
  end.

(** [int(round((1 / hz) * 1e9, 0))] *)
Definition period_ns (hz : Q) : result Z :=
  match true_div 1 hz with
  | Ok x =>
      match float_mul x (inject_Z (10 ^ 9)) with
      | Ok y => Ok (Float64.round_half_even y)
      | Raise e => Raise e
      end
  | Raise e => Raise e
  end.

(** [int(round((percent / 100) * pwm_period, 0))] *)
Definition duty_ns (percent : Q) (pwm_period : Z) : result Z :=
  match true_div percent 100 with
  | Ok x =>
      match float_mul x (inject_Z pwm_period) with
      | Ok y => Ok (Float64.round_half_even y)
      | Raise e => Raise e
      end
  | Raise e => Raise e
  end.

Section Methods.

Variable env : environment.

(** [PWM(chip, pin, frequency, duty_cycle_percent, invert_polarity)]: the
    object, unless [__init__] raises.  A value other than [None] returned
    from [__init__] is a [TypeError] of the instantiation. *)
Definition __init__ (chip pin : Z) (frequency duty_cycle_percent : Q)
    (invert_polarity : bool) : M gpio t :=
  let self := Make chip pin frequency duty_cycle_percent invert_polarity in
  r <- try_except_OSError
         (io env (PWM_Export chip pin) ;;
          (if invert_polarity
           then io env (PWM_Polarity chip pin true)
           else io env (PWM_Polarity chip pin false)) ;;
          io env (PWM_Enable chip pin) ;;
          io env (PWM_Frequency chip pin frequency))
         (fun errno =>
            if (errno =? 16)%Z then
              warn (PwmPinInUse pin) ;;
              io env (PWM_Unexport chip pin) ;;
              io env (PWM_Export chip pin) ;;
              ret RNone
            else raise (OSError errno)) ;;
  match r with
  | RNone => ret self
  | _ => raise TypeError
  end.

Definition start_pwm : M t retval :=
  self <- get ;;
  io env (PWM_Duty_Cycle_Percent (chip self) (pin self) (duty_cycle_percent self)).

Definition stop_pwm : M t retval :=
  self <- get ;;
  io env (PWM_Duty_Cycle_Percent (chip self) (pin self) 0).

Definition change_frequency (new_frequency : Q) : M t unit :=
  self <- get ;;
  pwm_period <- lift_result (period_ns new_frequency) ;;
  duty_cycle <- lift_result (duty_ns (duty_cycle_percent self) pwm_period) ;;
  old_pwm_period <- lift_result (period_ns (frequency self)) ;;
  (if (pwm_period >? old_pwm_period)%Z then
     io env (PWM_Period (chip self) (pin self) pwm_period) ;;
     io env (PWM_Duty_Cycle (chip self) (pin self) duty_cycle)
   else
     io env (PWM_Duty_Cycle (chip self) (pin self) duty_cycle) ;;
     io env (PWM_Period (chip self) (pin self) pwm_period)) ;;
  put (Make (chip self) (pin self) new_frequency
         (duty_cycle_percent self) (invert_polarity self)).

Definition duty_cycle (percent : Q) : M t retval :=
  self <- get ;;
  if Qle_bool 0 percent && Qle_bool percent 100 then
    put (Make (chip self) (pin self) (frequency self)
           percent (invert_polarity self)) ;;
    io env (PWM_Duty_Cycle_Percent (chip self) (pin self) percent)
  else raise (DutyCycleOutOfBounds percent).

Definition pwm_polarity : M t unit :=
  self <- get ;;
  io env (PWM_Disable (chip self) (pin self)) ;;
  io env (PWM_Polarity (chip self) (pin self) (negb (invert_polarity self))) ;;
  io env (PWM_Enable (chip self) (pin self)) ;;
  ret tt.

Definition pwm_close : M t unit :=
  self <- get ;;
  io env (PWM_Unexport (chip self) (pin self)) ;;
  ret tt.

End Methods.

(** The polarity in force after a log: the argument of the last
    [PWM_Polarity] call on the chip and pin that returned. *)
Fixpoint active_polarity (c p : Z) (l : list event) (start : option bool)
    : option bool :=
  match l with
  | [] => start
  | Io (PWM_Polarity c' p' b) (Returns _) :: rest =>
      if ((c' =? c) && (p' =? p))%Z
      then active_polarity c p rest (Some b)
      else active_polarity c p rest start
  | _ :: rest => active_polarity c p rest start
  end.

End PWM.

(* ================================================================== *)
(** ** Environments to run the model in *)

(** Every call returns. *)
Definition healthy : environment :=
  fun _ c =>
    match c with
    | SysInput _ => Returns (RInt 0)
    | EvEdgeDetected _ => Returns (RBool false)
    | _ => Returns RNone
    end.

(** The n-th call gets the n-th answer of the script, and [None] is
    returned once the script is used up. *)
Definition scripted (answers : list response) : environment :=
  fun h _ => nth (List.length h) answers (Returns RNone).

Definition run {S A} (m : M S A) (w : world S) : result A * world S := m w.

(* ================================================================== *)
(** ** Predicates used in the statements *)

(** The warning [x] as logged when [enabled] holds, nothing otherwise. *)
Definition warned (enabled : bool) (x : warning) : list event :=
  if enabled then [Warn x] else [].

(** Two states of the globals that differ at most in [_gpio_warnings]. *)
Definition same_globals (s1 s2 : gpio) : Prop :=
  _mode s1 = _mode s2 /\ _exports s1 = _exports s2 /\
  _pin_map_CUSTOM s1 = _pin_map_CUSTOM s2.

(** Two worlds that differ at most in the warnings toggle and in the
    warnings logged. *)
Definition same_but_warnings (w1 w2 : world gpio) : Prop :=
  same_globals (st w1) (st w2) /\ io_history (log w1) = io_history (log w2).

(** Two computations that, from such worlds, end alike. *)
Definition alike {A} (Q : A -> A -> Prop) (m1 m2 : M gpio A) : Prop :=
  forall w1 w2, same_but_warnings w1 w2 ->
    match m1 w1, m2 w2 with
    | (Ok a1, w1'), (Ok a2, w2') => Q a1 a2 /\ same_but_warnings w1' w2'
    | (Raise e1, w1'), (Raise e2, w2') => e1 = e2 /\ same_but_warnings w1' w2'
    | _, _ => False
    end.

(** A computation that, with the toggle off, logs no warning (and leaves
    the toggle off). *)
Definition quiet {A} (m : M gpio A) : Prop :=
  forall w, _gpio_warnings (st w) = false ->
    _gpio_warnings (st (snd (m w))) = false /\
    warnings_of (log (snd (m w))) = warnings_of (log w).

(** A computation that adds to the log only events satisfying [ok]. *)
Definition logs_only {A} (ok : event -> Prop) (m : M gpio A) : Prop :=
  forall w, exists added,
    log (snd (m w)) = log w ++ added /\ Forall ok added.

(* ================================================================== *)
(** ** Programs, registers and frames *)

(** The channels of an argument, lists flattened, in the order in which the
    loops visit them. *)
Fixpoint channels_of (a : chan_arg) : list channel :=
  match a with
  | One c => [c]
  | Many l => flat_map channels_of l
  end.

(** One call of the module's interface, and a program: calls in sequence,
    each made whether or not the one before raised (as under a caller that
    catches exceptions). *)
Inductive api_call : Type :=
| Call_setmode (a : mode_arg)
| Call_setwarnings (enabled : bool)
| Call_setup (channel : chan_arg) (dir : direction)
    (initial : option pyval) (pull_up_down : option pull)
| Call_input (c : channel)
| Call_output (channel : chan_arg) (state : pyval)
| Call_wait_for_edge (c : channel) (t : trigger) (timeout : Z)
| Call_add_event_detect (c : channel) (t : trigger)
    (cb : option callback) (bouncetime : option Z)
| Call_remove_event_detect (c : channel)
| Call_add_event_callback (c : channel) (cb : option callback)
    (bouncetime : option Z)
| Call_event_detected (c : channel)
| Call_cleanup (channel : option chan_arg).

Definition discard {S A} (m : M S A) : M S unit :=
  fun w => match m w with
           | (Ok _, w') => (Ok tt, w')
           | (Raise e, w') => (Raise e, w')
           end.

Definition api_run (env : environment) (k : api_call) : M gpio unit :=
  match k with
  | Call_setmode a => setmode a
  | Call_setwarnings b => setwarnings b
  | Call_setup a d i p => setup env a d i p
  | Call_input c => discard (input env c)
  | Call_output a v => discard (output env a v)
  | Call_wait_for_edge c t n => discard (wait_for_edge env c t n)
  | Call_add_event_detect c t cb b => add_event_detect env c t cb b
  | Call_remove_event_detect c => remove_event_detect env c
  | Call_add_event_callback c cb b => add_event_callback env c cb b
  | Call_event_detected c => discard (event_detected env c)
  | Call_cleanup a => cleanup env a
  end.

Fixpoint api_program (env : environment) (ks : list api_call)
    (w : world gpio) : world gpio :=
  match ks with
  | [] => w
  | k :: rest => api_program env rest (snd (api_run env k w))
  end.

(** Period and duty cycle (in nanoseconds) in force on a PWM pin after a
    log: the arguments of the last [PWM_Period] and [PWM_Duty_Cycle] calls
    on it that returned. *)
Fixpoint pwm_registers (c p : Z) (l : list event) (start : Z * Z) : Z * Z :=
  match l with
  | [] => start
  | Io (PWM_Period c' p' ns) (Returns _) :: rest =>
      if ((c' =? c) && (p' =? p))%Z
      then pwm_registers c p rest (ns, snd start)
      else pwm_registers c p rest start
  | Io (PWM_Duty_Cycle c' p' ns) (Returns _) :: rest =>
      if ((c' =? c) && (p' =? p))%Z
      then pwm_registers c p rest (fst start, ns)
      else pwm_registers c p rest start
  | _ :: rest => pwm_registers c p rest start
  end.

(** A computation that leaves the scheme, the warnings toggle and the custom
    mapping as they are, and the record of every channel outside [cs]. *)
Definition touches_only {A} (cs : list channel) (m : M gpio A) : Prop :=
  forall w,
    _mode (st (snd (m w))) = _mode (st w) /\
    _gpio_warnings (st (snd (m w))) = _gpio_warnings (st w) /\
    _pin_map_CUSTOM (st (snd (m w))) = _pin_map_CUSTOM (st w) /\
    forall c, ~ In c cs ->
      dict_get channel_eqb (_exports (st (snd (m w)))) c
      = dict_get channel_eqb (_exports (st w)) c.

(** Whether a PWM pin is enabled after a log: by the last [PWM_Enable] or
    [PWM_Disable] call on it that returned. *)
Fixpoint pwm_enabled (c p : Z) (l : list event) (start : bool) : bool :=
  match l with
  | [] => start
  | Io (PWM_Enable c' p') (Returns _) :: rest =>
      if ((c' =? c) && (p' =? p))%Z
      then pwm_enabled c p rest true
      else pwm_enabled c p rest start
  | Io (PWM_Disable c' p') (Returns _) :: rest =>
      if ((c' =? c) && (p' =? p))%Z
      then pwm_enabled c p rest false
      else pwm_enabled c p rest start
  | _ :: rest => pwm_enabled c p rest start
  end.

(** The argument of [cleanup] in full: nothing, a channel, or a list.  The
    loop over a list calls [cleanup(ch)] on each item, so that an item
    [None] is the call without argument, and a list item is looped over in
    turn.  ([cleanup env None] loops over the recorded channels, which are
    never [None].) *)
Inductive cleanup_arg : Type :=
| ArgNone
| ArgOne (c : channel)
| ArgMany (l : list cleanup_arg).

Fixpoint cleanup_any (env : environment) (a : cleanup_arg) {struct a}
    : M gpio unit :=
  match a with
  | ArgNone => cleanup env None
  | ArgMany l => for_each (cleanup_any env) l
  | ArgOne c => cleanup env (Some (One c))
  end.

(** Whether [None] occurs in an argument, at any depth. *)
Fixpoint has_none (a : cleanup_arg) : bool :=
  match a with
  | ArgNone => true
  | ArgOne _ => false
  | ArgMany l => existsb has_none l
  end.

(** The channels an argument names, lists flattened. *)
Fixpoint channels_named (a : cleanup_arg) : list channel :=
  match a with
  | ArgNone => []
  | ArgOne c => [c]
  | ArgMany l => flat_map channels_named l
  end.

(** An argument without [None], as a [cleanup_arg]. *)
Fixpoint arg_of (a : chan_arg) : cleanup_arg :=
  match a with
  | One c => ArgOne c
  | Many l => ArgMany (map arg_of l)
  end.

(** No channel twice, channels of the board only, and none while no scheme
    is selected. *)
Definition registry_ok (s : gpio) : Prop :=
  NoDup (dict_keys (_exports s)) /\
  (forall k, In k (dict_keys (_exports s)) ->
     exists p, dict_get channel_eqb BOARD_pins k = Some p) /\
  (_mode s = None -> _exports s = []).

Definition keeps_registry_ok {A} (m : M gpio A) : Prop :=
  forall w, registry_ok (st w) -> registry_ok (st (snd (m w))).

(** An event of the constructor's first attempt that went through: one of
    the calls before the frequency, returned. *)
Definition init_step_done (c p : Z) (inv : bool) (ev : event) : Prop :=
  exists v,
    ev = Io (PWM_Export c p) (Returns v) \/
    ev = Io (PWM_Polarity c p inv) (Returns v) \/
    ev = Io (PWM_Enable c p) (Returns v).

(* ================================================================== *)
(** * Proofs *)

(** ** binary64 rounding is monotone *)

Module Float64Facts.
Import Float64.
Open Scope Q_scope.

Lemma pow2_pos k : 0 < pow2 k.
Proof. apply Qpower_0_lt. reflexivity. Qed.

Lemma pow2_add a b : pow2 (a + b) == pow2 a * pow2 b.
Proof. apply Qpower_plus. discriminate. Qed.

Lemma pow2_le a b : (a <= b)%Z -> pow2 a <= pow2 b.
Proof. intro H. apply Qpower_le_compat_l; [exact H | discriminate]. Qed.

Lemma pow2_lt_inv a b : pow2 a < pow2 b -> (a < b)%Z.
Proof. intro H. apply (Qpower_lt_compat_l_inv (2 # 1)); [exact H | reflexivity]. Qed.

Lemma pow2_Z k : (0 <= k)%Z -> pow2 k == inject_Z (2 ^ k).
Proof. intro H. unfold pow2. rewrite Zpower_Qpower by exact H. reflexivity. Qed.

Lemma pow2_sub a b : pow2 (a - b) == pow2 a / pow2 b.
Proof.
  unfold Z.sub. rewrite pow2_add. unfold pow2 at 2. rewrite Qpower_opp.
  reflexivity.
Qed.

(** Division by a power of two is multiplication by the opposite power. *)

Lemma div_pow2 x e : x / pow2 e == x * pow2 (- e).
Proof. unfold pow2. rewrite Qpower_opp. reflexivity. Qed.

Lemma ilog2_spec x : 0 < x -> pow2 (ilog2 x) <= x /\ x < pow2 (ilog2 x + 1).
Proof.
  intros Hx. destruct x as [n d]. unfold ilog2; cbn [Qnum Qden].
  assert (Hn : (0 < n)%Z) by (unfold Qlt in Hx; cbn in Hx; lia).
  set (a := Z.log2 n). set (b := Z.log2 (Zpos d)).
  assert (Ha : (0 <= a)%Z) by apply Z.log2_nonneg.
  assert (Hb : (0 <= b)%Z) by apply Z.log2_nonneg.
  destruct (Z.log2_spec n Hn) as [Ha1 Ha2]. fold a in Ha1, Ha2.
  destruct (Z.log2_spec (Zpos d) (Pos2Z.is_pos d)) as [Hb1 Hb2]. fold b in Hb1, Hb2.
  replace (Z.succ a) with (a + 1)%Z in Ha2 by lia.
  replace (Z.succ b) with (b + 1)%Z in Hb2 by lia.
  clearbody a b.
  assert (Hpa : (0 < 2 ^ a)%Z) by (apply Z.pow_pos_nonneg; lia).
  (* n/d lies strictly between 2^(a-b-1) and 2^(a-b+1) *)
  assert (Hlow : pow2 (a - b - 1) <= n # d).
  { replace (a - b - 1)%Z with (a - (b + 1))%Z by lia.
    rewrite pow2_sub, (@pow2_Z a), (@pow2_Z (b + 1)) by lia.
    apply Qle_shift_div_r.
    - change 0 with (inject_Z 0). rewrite <- Zlt_Qlt. lia.
    - unfold Qle, Qmult, inject_Z; cbn [Qnum Qden].
      rewrite Pos.mul_1_r, Z.mul_1_r. nia. }
  assert (Hhigh : n # d < pow2 (a - b + 1)).
  { replace (a - b + 1)%Z with (a + 1 - b)%Z by lia.
    rewrite pow2_sub, (@pow2_Z (a + 1)), (@pow2_Z b) by lia.
    apply Qlt_shift_div_l.
    - change 0 with (inject_Z 0). rewrite <- Zlt_Qlt. lia.
    - unfold Qlt, Qmult, inject_Z; cbn [Qnum Qden].
      rewrite Pos.mul_1_r, Z.mul_1_r. nia. }
  destruct (Qle_bool (pow2 (a - b)) (n # d)) eqn:E.
  - apply Qle_bool_iff in E. split; assumption.
  - split; [exact Hlow|].
    replace (a - b - 1 + 1)%Z with (a - b)%Z by lia.
    apply Qnot_le_lt. intro H. apply Qle_bool_iff in H. congruence.
Qed.

Lemma ilog2_mono x y : 0 < x -> x <= y -> (ilog2 x <= ilog2 y)%Z.
Proof.
  intros Hx Hxy.
  assert (Hy : 0 < y) by (eapply Qlt_le_trans; eassumption).
  destruct (ilog2_spec Hx) as [H1 _]. destruct (ilog2_spec Hy) as [_ H2].
  assert (H : pow2 (ilog2 x) < pow2 (ilog2 y + 1)).
  { eapply Qle_lt_trans; [exact H1|]. eapply Qle_lt_trans; eassumption. }
  apply pow2_lt_inv in H. lia.
Qed.

Lemma round_half_even_bounds x :
  (Qfloor x <= round_half_even x <= Qfloor x + 1)%Z.
Proof.
  unfold round_half_even.
  destruct (Qcompare _ _); [destruct (Z.even _)|..]; lia.
Qed.

Lemma round_half_even_mono x y :
  x <= y -> (round_half_even x <= round_half_even y)%Z.
Proof.
  intros Hxy.
  pose proof (Qfloor_resp_le _ _ Hxy) as Hf.
  destruct (Z.eq_dec (Qfloor x) (Qfloor y)) as [E|N].
  - unfold round_half_even. rewrite <- E.
    generalize (inject_Z (Qfloor x)); intro fx.
    destruct (Qcompare (x - fx) (1 # 2)) eqn:Cx;
    destruct (Qcompare (y - fx) (1 # 2)) eqn:Cy;
    try (destruct (Z.even (Qfloor x))); try lia; exfalso.
    all: first [apply Qeq_alt in Cx | apply Qlt_alt in Cx | apply Qgt_alt in Cx];
         first [apply Qeq_alt in Cy | apply Qlt_alt in Cy | apply Qgt_alt in Cy];
         lra.
  - pose proof (round_half_even_bounds x). pose proof (round_half_even_bounds y). lia.
Qed.

Lemma round_half_even_Z k : round_half_even (inject_Z k) = k.
Proof.
  unfold round_half_even. rewrite Qfloor_Z.
  assert (E : forall q, Qcompare (q - q) (1 # 2) = Lt).
  { intro q. rewrite <- Qlt_alt. lra. }
  rewrite E. reflexivity.
Qed.

Lemma fexp_mono x y : 0 < x -> x <= y -> (fexp x <= fexp y)%Z.
Proof.
  intros Hx Hxy. unfold fexp. pose proof (ilog2_mono Hx Hxy). lia.
Qed.

Lemma round_pos_eq x :
  round_pos x == inject_Z (round_half_even (x / pow2 (fexp x))) * pow2 (fexp x).
Proof. unfold round_pos. apply Qred_correct. Qed.

Lemma round_pos_mono x y : 0 < x -> x <= y -> round_pos x <= round_pos y.
Proof.
  intros Hx Hxy.
  assert (Hy : 0 < y) by (eapply Qlt_le_trans; eassumption).
  rewrite !round_pos_eq.
  pose proof (fexp_mono Hx Hxy) as He.
  destruct (Z.eq_dec (fexp x) (fexp y)) as [E|N].
  - rewrite E. apply Qmult_le_compat_r; [|apply Qlt_le_weak, pow2_pos].
    rewrite <- Zle_Qle. apply round_half_even_mono.
    apply Qmult_le_compat_r; [exact Hxy|].
    apply Qlt_le_weak, Qinv_lt_0_compat, pow2_pos.
  - (* x is below 2^(53 + fexp x), y is at or above 2^(52 + fexp y) *)
    assert (Ey : fexp y = (ilog2 y - 52)%Z) by (unfold fexp in *; lia).
    assert (Ex : (ilog2 x + 1 <= fexp x + 53)%Z) by (unfold fexp; lia).
    destruct (ilog2_spec Hx) as [_ Hx2]. destruct (ilog2_spec Hy) as [Hy1 _].
    apply Qle_trans with (pow2 (53 + fexp x)).
    + rewrite pow2_add, (@pow2_Z 53) by lia.
      apply Qmult_le_compat_r; [|apply Qlt_le_weak, pow2_pos].
      rewrite <- Zle_Qle.
      rewrite <- (round_half_even_Z (2 ^ 53)).
      apply round_half_even_mono.
      rewrite <- (@pow2_Z 53) by lia.
      apply Qle_shift_div_r; [apply pow2_pos|].
      rewrite <- pow2_add. apply Qlt_le_weak.
      eapply Qlt_le_trans; [exact Hx2|]. apply pow2_le. lia.
    + apply Qle_trans with (pow2 (52 + fexp y)); [apply pow2_le; lia|].
      rewrite pow2_add, (@pow2_Z 52) by lia.
      apply Qmult_le_compat_r; [|apply Qlt_le_weak, pow2_pos].
      rewrite <- Zle_Qle.
      rewrite <- (round_half_even_Z (2 ^ 52)).
      apply round_half_even_mono.
      rewrite <- (@pow2_Z 52) by lia.
      apply Qle_shift_div_l; [apply pow2_pos|].
      rewrite <- pow2_add. eapply Qle_trans; [|exact Hy1].
      apply pow2_le. lia.
Qed.

Lemma round_pos_nonneg x : 0 < x -> 0 <= round_pos x.
Proof.
  intros Hx. rewrite round_pos_eq.
  apply Qmult_le_0_compat; [|apply Qlt_le_weak, pow2_pos].
  change 0 with (inject_Z 0). rewrite <- Zle_Qle.
  rewrite <- (round_half_even_Z 0). apply round_half_even_mono.
  apply Qlt_le_weak, Qlt_shift_div_l; [apply pow2_pos|]. rewrite Qmult_0_l. exact Hx.
Qed.

Lemma Qnum_pos x : 0 < x <-> exists p, Qnum x = Zpos p.
Proof.
  destruct x as [[|p|p] d]; unfold Qlt; cbn; split; intros H;
    try lia; try (destruct H; discriminate); eauto.
Qed.

Lemma Qnum_neg x : x < 0 <-> exists p, Qnum x = Zneg p.
Proof.
  destruct x as [[|p|p] d]; unfold Qlt; cbn; split; intros H;
    try lia; try (destruct H; discriminate); eauto.
Qed.

Lemma b64_round_sign x :
  (0 < x -> b64_round x = round_pos x) /\
  (x < 0 -> b64_round x == - round_pos (- x)) /\
  (x == 0 -> b64_round x = 0).
Proof.
  unfold b64_round. repeat split; intros H.
  - apply Qnum_pos in H. destruct H as [p ->]. reflexivity.
  - apply Qnum_neg in H. destruct H as [p ->]. apply Qred_correct.
  - destruct x as [[|p|p] d]; unfold Qeq in H; cbn in *; try lia. reflexivity.
Qed.

(** Rounding to binary64 is monotone. *)

Lemma b64_round_mono x y : x <= y -> b64_round x <= b64_round y.
Proof.
  intros Hxy.
  destruct (b64_round_sign x) as (Px & Nx & Zx).
  destruct (b64_round_sign y) as (Py & Ny & Zy).
  destruct (Q_dec x 0) as [[Hx|Hx]|Hx]; destruct (Q_dec y 0) as [[Hy|Hy]|Hy];
    try lra.
  - rewrite (Nx Hx), (Ny Hy). apply Qopp_le_compat.
    apply round_pos_mono; lra.
  - rewrite (Nx Hx), (Py Hy).
    assert (0 <= round_pos (- x)) by (apply round_pos_nonneg; lra).
    assert (0 <= round_pos y) by (apply round_pos_nonneg; lra). lra.
  - rewrite (Nx Hx), (Zy Hy).
    assert (0 <= round_pos (- x)) by (apply round_pos_nonneg; lra). lra.
  - rewrite (Px Hx), (Py Hy). apply round_pos_mono; assumption.
  - rewrite (Zx Hx), (Py Hy). apply round_pos_nonneg; lra.
  - rewrite (Zx Hx), (Zy Hy). lra.
Qed.

Lemma b64_Some x r : b64 x = Some r -> r = b64_round x.
Proof.
  unfold b64. destruct (Qle_bool _ _); congruence.
Qed.

End Float64Facts.

(** The model against the kernel's hardware doubles, on samples: exact
    quotients, inexact ones, a negative one, subnormal results (a tie at
    half the smallest subnormal included) and an overflow. *)
Example b64_agrees_with_hardware :
  Float64.hardware (1 / 1000)%float = Float64.b64 (1 / 1000) /\
  Float64.hardware (1 / 1000 * 1e9)%float = Float64.b64 (1000000 # 1) /\
  Float64.hardware (1 / 3)%float = Float64.b64 (1 / 3) /\
  Float64.hardware (1 / 5120)%float = Float64.b64 (1 / 5120) /\
  Float64.hardware (-7 / 100)%float = Float64.b64 (-7 / 100) /\
  Float64.hardware (0x1p-1000 / 0x1p74)%float
    = Float64.b64 (Float64.pow2 (-1000) / Float64.pow2 74) /\
  Float64.hardware (0x1p-1000 / 0x1p75)%float
    = Float64.b64 (Float64.pow2 (-1000) / Float64.pow2 75) /\
  Float64.hardware (0x1p1023 * 2)%float = Float64.b64 (Float64.pow2 1024).
Proof. repeat split; vm_compute; reflexivity. Qed.

(** ** Logs, channels and dictionaries *)

Lemma io_history_app l1 l2 : io_history (l1 ++ l2) = io_history l1 ++ io_history l2.
Proof.
  induction l1 as [|[c r|x] l1 IH]; cbn; [reflexivity| |exact IH].
  now rewrite IH.
Qed.

Lemma warnings_of_app l1 l2 : warnings_of (l1 ++ l2) = warnings_of l1 ++ warnings_of l2.
Proof.
  induction l1 as [|[c r|x] l1 IH]; cbn; [reflexivity|exact IH|].
  now rewrite IH.
Qed.

Lemma calls_of_app l1 l2 : calls_of (l1 ++ l2) = calls_of l1 ++ calls_of l2.
Proof. unfold calls_of. now rewrite io_history_app, map_app. Qed.

Lemma channel_eqb_eq a b : channel_eqb a b = true <-> a = b.
Proof.
  destruct a, b; cbn; split; intros H; try discriminate; try congruence.
  - apply Z.eqb_eq in H. congruence.
  - injection H as ->. apply Z.eqb_refl.
  - apply String.eqb_eq in H. congruence.
  - injection H as ->. apply String.eqb_refl.
Qed.

Lemma channel_eqb_refl a : channel_eqb a a = true.
Proof. now apply channel_eqb_eq. Qed.

Section DictFacts.
Variables (V : Type).
Implicit Types (d : dict channel V) (k : channel).

Lemma dict_get_set_same d k v : dict_get channel_eqb (dict_set channel_eqb d k v) k = Some v.
Proof.
  induction d as [|[k' v'] d IH]; cbn.
  - now rewrite channel_eqb_refl.
  - destruct (channel_eqb k' k) eqn:E; cbn; rewrite E; [reflexivity|exact IH].
Qed.

Lemma dict_get_del_same d k : dict_get channel_eqb (dict_del channel_eqb d k) k = None.
Proof.
  induction d as [|[k' v'] d IH]; cbn; [reflexivity|].
  destruct (channel_eqb k' k) eqn:E; cbn; [exact IH|]. now rewrite E.
Qed.

Lemma dict_set_absent d k v :
  dict_get channel_eqb d k = None -> dict_set channel_eqb d k v = d ++ [(k, v)].
Proof.
  induction d as [|[k' v'] d IH]; cbn; [reflexivity|].
  destruct (channel_eqb k' k); [discriminate|]. intros H. now rewrite IH.
Qed.

Lemma dict_keys_del d k k' :
  In k' (dict_keys (dict_del channel_eqb d k)) -> In k' (dict_keys d) /\ k' <> k.
Proof.
  induction d as [|[k0 v0] d IH]; cbn; [tauto|].
  destruct (channel_eqb k0 k) eqn:E; cbn.
  - intros H. apply IH in H. tauto.
  - intros [<-|H].
    + split; [now left|]. intros ->. now rewrite channel_eqb_refl in E.
    + apply IH in H. tauto.
Qed.

Lemma dict_del_all ks : forall d,
  (forall k, In k (dict_keys d) -> In k ks) ->
  fold_left (dict_del channel_eqb (V:=V)) ks d = [].
Proof.
  induction ks as [|k ks IH]; intros d H; cbn.
  - destruct d as [|[k v] d]; [reflexivity|]. destruct (H k). now left.
  - apply IH. intros k' Hk'. apply dict_keys_del in Hk'. destruct Hk' as [Hin Hne].
    destruct (H k' Hin); [congruence|assumption].
Qed.

Lemma dict_get_del_other d k k' :
  k' <> k ->
  dict_get channel_eqb (dict_del channel_eqb d k) k' = dict_get channel_eqb d k'.
Proof.
  intros Hne. induction d as [|[k0 v0] d IH]; cbn; [reflexivity|].
  destruct (channel_eqb k0 k) eqn:E; cbn.
  - apply channel_eqb_eq in E. subst k0.
    destruct (channel_eqb k k') eqn:E'; [|exact IH].
    apply channel_eqb_eq in E'. congruence.
  - now rewrite IH.
Qed.

Lemma dict_get_keys d k : In k (dict_keys d) -> dict_get channel_eqb d k <> None.
Proof.
  induction d as [|[k0 v0] d IH]; cbn; [tauto|].
  intros [<-|H]; [now rewrite channel_eqb_refl|].
  destruct (channel_eqb k0 k); [discriminate|auto].
Qed.

End DictFacts.

Lemma chan_arg_ind' (P : chan_arg -> Prop) :
  (forall c, P (One c)) ->
  (forall l, Forall P l -> P (Many l)) ->
  forall a, P a.
Proof.
  intros H1 HM. fix IH 1. intros [c|l]; [apply H1|].
  apply HM. induction l as [|a l IHl]; constructor; [apply IH|exact IHl].
Qed.

(** ** Running the monad by cases *)

Ltac unfold_m1 :=
  unfold run, bind, ret, raise, get, put, warn, when, lift_result,
    try_except_OSError, io, set_export, del_export, set_mode, setwarnings,
    get_gpio_pin, _check_configured, is_some, dict_mem in *.

Ltac unfold_m := repeat (progress unfold_m1); cbn beta iota delta [st log fst snd] in *.

Ltac innermost x :=
  lazymatch x with
  | context [match _ with _ => _ end] => fail
  | _ => idtac
  end.

Ltac case_step :=
  match goal with
  | H : (_, _) = (_, _) |- _ => inversion H; clear H; subst
  | H : Ok _ = Raise _ |- _ => discriminate H
  | H : Raise _ = Ok _ |- _ => discriminate H
  | H : context [match ?x with _ => _ end] |- _ => innermost x; destruct x eqn:?
  end.

(** [get_gpio_pin] got past its assertion: the scheme is [BOARD]. *)

Ltac only_board :=
  match goal with
  | H : mode_in (Some ?m) [BOARD] = true, H' : _pin_map _ ?m = Some _ |- _ =>
      destruct m; try discriminate H; clear H;
      cbn [_pin_map] in H'; injection H' as <-
  end.

Ltac exec := repeat (case_step; cbn [st log fst snd] in * ).

Lemma setup_ok_inv env c dir initial pud w w1 :
  run (setup env (One c) dir initial pud) w = (Ok tt, w1) ->
  _mode (st w) = Some BOARD /\
  dict_get channel_eqb (_exports (st w)) c = None /\
  (exists pin, dict_get channel_eqb BOARD_pins c = Some pin) /\
  st w1 = Gpio (_gpio_warnings (st w)) (Some BOARD)
            (dict_set channel_eqb (_exports (st w)) c dir)
            (_pin_map_CUSTOM (st w)).
Proof.
  cbn [setup]. unfold_m. intros H.
  destruct (_mode (st w)) as [[]|] eqn:Hm; cbn [mode_in existsb mode_eqb orb _pin_map] in H;
    exec; try discriminate.
  all: repeat split; eauto; congruence.
Qed.

Lemma cleanup_one_ok_inv env c w w' :
  run (cleanup_channel env (One c)) w = (Ok tt, w') ->
  st w' = Gpio (_gpio_warnings (st w)) (_mode (st w))
            (dict_del channel_eqb (_exports (st w)) c)
            (_pin_map_CUSTOM (st w)) /\
  exists pin v v0,
    _mode (st w) = Some BOARD /\
    dict_get channel_eqb BOARD_pins c = Some pin /\
    log w' = log w ++ [Io (EvCleanup pin) (Returns v);
                      Io (SysUnexport pin) (Returns v0)].
Proof.
  cbn [cleanup_channel]. unfold_m. intros H. exec; try discriminate.
  only_board.
  split; [congruence|]. do 3 eexists.
  split; [first [reflexivity | eassumption]|]. split; [eassumption|]. now rewrite <- app_assoc.
Qed.

Lemma cleanup_channel_Many env l :
  cleanup_channel env (Many l) = for_each (cleanup_channel env) l.
Proof. reflexivity. Qed.

Lemma for_each_cons S X (body : X -> M S unit) x l w :
  for_each body (x :: l) w =
  match body x w with
  | (Ok _, w') => for_each body l w'
  | (Raise e, w') => (Raise e, w')
  end.
Proof. reflexivity. Qed.

Lemma cleanup_each_ok env ks : forall w w',
  run (for_each (cleanup_channel env) (map One ks)) w = (Ok tt, w') ->
  st w' = Gpio (_gpio_warnings (st w)) (_mode (st w))
            (fold_left (dict_del channel_eqb (V:=direction)) ks (_exports (st w)))
            (_pin_map_CUSTOM (st w)) /\
  exists pins,
    Forall2 (fun k p => dict_get channel_eqb BOARD_pins k = Some p) ks pins /\
    calls_of (log w') =
      calls_of (log w) ++ flat_map (fun p => [EvCleanup p; SysUnexport p]) pins.
Proof.
  induction ks as [|k ks IH]; intros w w' H.
  - cbn in H. unfold run, ret in H. inversion H; subst. split.
    + now destruct (st w').
    + exists []. split; [constructor|]. cbn. now rewrite app_nil_r.
  - cbn [map] in H. unfold run in H. rewrite for_each_cons in H.
    destruct (cleanup_channel env (One k) w) as [[[]|e] w1] eqn:E1; [|discriminate].
    apply cleanup_one_ok_inv in E1.
    destruct E1 as (Hst1 & pin & v & v0 & Hm & Hpin & Hlog).
    apply IH in H. destruct H as (Hst & pins & HF & Hcalls).
    split.
    + rewrite Hst, Hst1. reflexivity.
    + exists (pin :: pins). split; [constructor; assumption|].
      rewrite Hcalls, Hlog, calls_of_app. cbn. now rewrite <- app_assoc.
Qed.

Lemma cleanup_each_returns env ks :
  (forall h p, exists v, env h (EvCleanup p) = Returns v) ->
  (forall h p, exists v, env h (SysUnexport p) = Returns v) ->
  forall w,
    _mode (st w) = Some BOARD ->
    NoDup ks ->
    (forall k, In k ks ->
       dict_get channel_eqb (_exports (st w)) k <> None /\
       exists p, dict_get channel_eqb BOARD_pins k = Some p) ->
    exists w', run (for_each (cleanup_channel env) (map One ks)) w = (Ok tt, w').
Proof.
  intros Hc Hu. induction ks as [|k ks IH]; intros w Hm Hnd Hks.
  - eexists. reflexivity.
  - inversion Hnd as [|? ? Hnotin Hnd']; subst.
    destruct (Hks k (or_introl eq_refl)) as [Hcfg [p Hp]].
    cbn [map]. unfold run. rewrite for_each_cons.
    destruct (Hc (io_history (log w)) p) as [v Hv].
    destruct (Hu (io_history (log w ++ [Io (EvCleanup p) (Returns v)])) p) as [v0 Hv0].
    assert (E : cleanup_channel env (One k) w =
                (Ok tt, World (Gpio (_gpio_warnings (st w)) (_mode (st w))
                                 (dict_del channel_eqb (_exports (st w)) k)
                                 (_pin_map_CUSTOM (st w)))
                          ((log w ++ [Io (EvCleanup p) (Returns v)])
                             ++ [Io (SysUnexport p) (Returns v0)]))).
    { cbn [cleanup_channel]. unfold_m.
      destruct (dict_get channel_eqb (_exports (st w)) k); [|congruence].
      rewrite Hm. cbn [mode_in existsb mode_eqb orb _pin_map]. rewrite Hp.
      cbn [st log]. rewrite Hv. cbn [st log]. rewrite Hv0.
      cbn [st log]. now rewrite ?Hm. }
    rewrite E. apply IH; cbn [st _mode _exports]; [assumption|assumption|].
    intros k' Hk'. destruct (Hks k' (or_intror Hk')) as [H1 H2]. split; [|exact H2].
    rewrite dict_get_del_other; [exact H1|]. intros ->. contradiction.
Qed.

(** [cleanup()] returns when the scheme is [BOARD], every configured channel
    is on the board and the collaborators do not fail. *)
Lemma cleanup_all_returns env w :
  (forall h p, exists v, env h (EvCleanup p) = Returns v) ->
  (forall h p, exists v, env h (SysUnexport p) = Returns v) ->
  _mode (st w) = Some BOARD ->
  NoDup (dict_keys (_exports (st w))) ->
  (forall k, In k (dict_keys (_exports (st w))) ->
     exists p, dict_get channel_eqb BOARD_pins k = Some p) ->
  exists w', run (cleanup env None) w = (Ok tt, w').
Proof.
  intros Hc Hu Hm Hnd Hb.
  destruct (@cleanup_each_returns env (dict_keys (_exports (st w))) Hc Hu w Hm Hnd)
    as [w1 H1].
  { intros k Hk. split; [now apply dict_get_keys|auto]. }
  unfold cleanup, run, bind at 1. unfold get at 1. cbn beta iota.
  unfold bind at 1. rewrite cleanup_channel_Many. unfold run in H1. rewrite H1.
  eexists. reflexivity.
Qed.

(** ** Runs that differ in the warnings toggle only *)

Section Alike.
Variable env : environment.

Lemma alike_ret A (Q : A -> A -> Prop) a1 a2 : Q a1 a2 -> alike Q (ret a1) (ret a2).
Proof. intros H w1 w2 Hw. cbn. auto. Qed.

Lemma alike_raise A (Q : A -> A -> Prop) e : alike Q (raise e) (raise e).
Proof. intros w1 w2 Hw. cbn. auto. Qed.

Lemma alike_bind A B (Q : A -> A -> Prop) (Q' : B -> B -> Prop) m1 m2 f1 f2 :
  alike Q m1 m2 ->
  (forall a1 a2, Q a1 a2 -> alike Q' (f1 a1) (f2 a2)) ->
  alike Q' (bind m1 f1) (bind m2 f2).
Proof.
  intros Hm Hf w1 w2 Hw. unfold bind. specialize (Hm w1 w2 Hw).
  destruct (m1 w1) as [[a1|e1] w1'], (m2 w2) as [[a2|e2] w2']; try contradiction.
  - destruct Hm as [Ha Hw']. apply (Hf a1 a2 Ha w1' w2' Hw').
  - exact Hm.
Qed.

Lemma alike_get : alike same_globals get get.
Proof. intros w1 w2 Hw. cbn. split; [apply Hw|exact Hw]. Qed.

Lemma alike_io c : alike eq (io env c) (io env c).
Proof.
  intros w1 w2 [Hs Hh]. unfold io. rewrite Hh.
  destruct (env (io_history (log w2)) c); cbn; (split; [reflexivity|]);
    (split; [exact Hs|]); cbn; rewrite !io_history_app; cbn; now rewrite Hh.
Qed.

(** A warning, emitted or not, changes nothing that is compared. *)

Lemma alike_warn b1 b2 x y :
  alike eq (when b1 (warn x)) (when b2 (warn y)).
Proof.
  intros w1 w2 [Hs Hh].
  destruct b1, b2; cbn; (split; [reflexivity|]); (split; [exact Hs|]); cbn;
    rewrite ?io_history_app; cbn; now rewrite ?app_nil_r.
Qed.

Lemma alike_try A (Q : A -> A -> Prop) m1 m2 h1 h2 :
  alike Q m1 m2 -> (forall n, alike Q (h1 n) (h2 n)) ->
  alike Q (try_except_OSError m1 h1) (try_except_OSError m2 h2).
Proof.
  intros Hm Hh w1 w2 Hw. unfold try_except_OSError. specialize (Hm w1 w2 Hw).
  destruct (m1 w1) as [[a1|e1] w1'], (m2 w2) as [[a2|e2] w2']; try contradiction.
  - exact Hm.
  - destruct Hm as [<- Hw']. destruct e1; try (split; [reflexivity|exact Hw']).
    apply Hh, Hw'.
Qed.

Lemma alike_for_each X (f1 f2 : X -> M gpio unit) l :
  Forall (fun x => alike eq (f1 x) (f2 x)) l ->
  alike eq (for_each f1 l) (for_each f2 l).
Proof.
  induction 1 as [|x l Hx Hl IH]; cbn [for_each].
  - now apply alike_ret.
  - eapply alike_bind; [exact Hx|]. intros _ _ _. exact IH.
Qed.

Lemma alike_get_gpio_pin m c : alike eq (get_gpio_pin m c) (get_gpio_pin m c).
Proof.
  unfold get_gpio_pin. eapply alike_bind; [apply alike_get|].
  intros s1 s2 (Hm & He & Hc).
  destruct (mode_in m [BOARD]); [|apply alike_raise].
  destruct m as [m|]; [|apply alike_raise].
  assert (E : _pin_map s1 m = _pin_map s2 m) by (destruct m; cbn; congruence).
  rewrite E. destruct (_pin_map s2 m); [|apply alike_raise].
  destruct (dict_get _ _ _); [now apply alike_ret|apply alike_raise].
Qed.

Lemma alike_check_configured c d :
  alike eq (_check_configured c d) (_check_configured c d).
Proof.
  unfold _check_configured. eapply alike_bind; [apply alike_get|].
  intros s1 s2 (Hm & He & Hc). rewrite He.
  destruct (dict_get _ _ _); [|apply alike_raise].
  destruct d; [|now apply alike_ret].
  destruct (negb _); [apply alike_raise|now apply alike_ret].
Qed.

Lemma alike_set_export c d : alike eq (set_export c d) (set_export c d).
Proof.
  intros w1 w2 [(Hm & He & Hc) Hh]. cbn. split; [reflexivity|].
  split; [|exact Hh]. unfold same_globals. cbn. repeat split; congruence.
Qed.

Lemma alike_setup a : forall dir initial pud,
  alike eq (setup env a dir initial pud) (setup env a dir initial pud).
Proof.
  induction a as [c|l IH] using chan_arg_ind'; intros dir initial pud;
    cbn [setup]; (eapply alike_bind; [apply alike_get|]);
    intros s1 s2 (Hm & He & Hc); rewrite Hm;
    (destruct (_mode s2); [|apply alike_raise]);
    (eapply alike_bind; [destruct pud; cbn [is_some when];
                         [apply alike_warn|now apply alike_ret]|]);
    intros _ _ _.
  - rewrite He. destruct (dict_mem _ _ _); [apply alike_raise|].
    eapply alike_bind; [apply alike_get_gpio_pin|]. intros pin ? <-.
    eapply alike_bind.
    { apply alike_try.
      - eapply alike_bind; [apply alike_io|]. intros. now apply alike_ret.
      - intros n. destruct (n =? 16)%Z; [|apply alike_raise].
        eapply alike_bind; [apply alike_warn|]. intros _ _ _.
        eapply alike_bind; [apply alike_io|]. intros _ _ _.
        eapply alike_bind; [apply alike_io|]. intros _ _ _.
        now apply alike_ret. }
    intros _ _ _. eapply alike_bind; [apply alike_io|]. intros _ _ _.
    eapply alike_bind; [apply alike_set_export|]. intros _ _ _.
    destruct dir, initial; try now apply alike_ret.
    eapply alike_bind; [apply alike_io|]. intros. now apply alike_ret.
  - apply alike_for_each. revert IH. apply Forall_impl. intros a Ha. apply Ha.
Qed.

Lemma alike_add_event_detect c t cb bt :
  alike eq (add_event_detect env c t cb bt) (add_event_detect env c t cb bt).
Proof.
  unfold add_event_detect.
  eapply alike_bind; [apply alike_check_configured|]. intros _ _ _.
  eapply alike_bind; [apply alike_get|]. intros s1 s2 (Hm & He & Hc).
  eapply alike_bind; [destruct bt; cbn [is_some when];
                      [apply alike_warn|now apply alike_ret]|].
  intros _ _ _. rewrite Hm.
  eapply alike_bind; [apply alike_get_gpio_pin|]. intros pin ? <-.
  eapply alike_bind; [apply alike_io|]. intros. now apply alike_ret.
Qed.

Lemma alike_add_event_callback c cb bt :
  alike eq (add_event_callback env c cb bt) (add_event_callback env c cb bt).
Proof.
  unfold add_event_callback.
  eapply alike_bind; [apply alike_check_configured|]. intros _ _ _.
  eapply alike_bind; [apply alike_get|]. intros s1 s2 (Hm & He & Hc).
  eapply alike_bind; [destruct bt; cbn [is_some when];
                      [apply alike_warn|now apply alike_ret]|].
  intros _ _ _. rewrite Hm.
  eapply alike_bind; [apply alike_get_gpio_pin|]. intros pin ? <-.
  eapply alike_bind; [apply alike_io|]. intros. now apply alike_ret.
Qed.

End Alike.

Section Quiet.
Variable env : environment.

Lemma quiet_ret A (a : A) : quiet (ret a).
Proof. intros w H. cbn. auto. Qed.

Lemma quiet_raise A e : quiet (@raise gpio A e).
Proof. intros w H. cbn. auto. Qed.

Lemma quiet_bind A B (m : M gpio A) (f : A -> M gpio B) :
  quiet m -> (forall a, quiet (f a)) -> quiet (bind m f).
Proof.
  intros Hm Hf w H. unfold bind. specialize (Hm w H).
  destruct (m w) as [[a|e] w1]; cbn in Hm; [|exact Hm].
  destruct Hm as [H1 <-]. apply Hf, H1.
Qed.

Lemma quiet_get A (f : gpio -> M gpio A) :
  (forall s, _gpio_warnings s = false -> quiet (f s)) -> quiet (bind get f).
Proof. intros Hf w H. unfold bind, get. apply Hf; exact H. Qed.

Lemma quiet_io c : quiet (io env c).
Proof.
  intros w H. unfold io.
  destruct (env (io_history (log w)) c); cbn; (split; [exact H|]);
    rewrite warnings_of_app; cbn; now rewrite app_nil_r.
Qed.

Lemma quiet_when_off x : quiet (when false (warn x)).
Proof. apply quiet_ret. Qed.

Lemma quiet_try A (m : M gpio A) h :
  quiet m -> (forall n, quiet (h n)) -> quiet (try_except_OSError m h).
Proof.
  intros Hm Hh w H. unfold try_except_OSError. specialize (Hm w H).
  destruct (m w) as [[a|e] w1]; cbn in Hm; [exact Hm|].
  destruct e; try exact Hm. destruct Hm as [H1 <-]. apply Hh, H1.
Qed.

Lemma quiet_for_each X (f : X -> M gpio unit) l :
  Forall (fun x => quiet (f x)) l -> quiet (for_each f l).
Proof.
  induction 1 as [|x l Hx Hl IH]; cbn [for_each].
  - apply quiet_ret.
  - apply quiet_bind; [exact Hx|]. intros _. exact IH.
Qed.

Lemma quiet_get_gpio_pin m c : quiet (get_gpio_pin m c).
Proof.
  unfold get_gpio_pin. apply quiet_get. intros s Hs.
  destruct (mode_in m [BOARD]); [|apply quiet_raise].
  destruct m as [m|]; [|apply quiet_raise].
  destruct (_pin_map s m); [|apply quiet_raise].
  destruct (dict_get _ _ _); [apply quiet_ret|apply quiet_raise].
Qed.

Lemma quiet_check_configured c d : quiet (_check_configured c d).
Proof.
  unfold _check_configured. apply quiet_get. intros s Hs.
  destruct (dict_get _ _ _); [|apply quiet_raise].
  destruct d; [|apply quiet_ret].
  destruct (negb _); [apply quiet_raise|apply quiet_ret].
Qed.

Lemma quiet_set_export c d : quiet (set_export c d).
Proof. intros w H. cbn. auto. Qed.

Lemma quiet_setup a : forall dir initial pud, quiet (setup env a dir initial pud).
Proof.
  induction a as [c|l IH] using chan_arg_ind'; intros dir initial pud;
    cbn [setup]; apply quiet_get; intros s Hs; rewrite Hs;
    (destruct (_mode s); [|apply quiet_raise]);
    (apply quiet_bind; [destruct pud; apply quiet_ret|]); intros _.
  - destruct (dict_mem _ _ _); [apply quiet_raise|].
    apply quiet_bind; [apply quiet_get_gpio_pin|]. intros pin.
    apply quiet_bind.
    { apply quiet_try.
      - apply quiet_bind; [apply quiet_io|]. intros. apply quiet_ret.
      - intros n. destruct (n =? 16)%Z; [|apply quiet_raise].
        apply quiet_bind; [apply quiet_ret|]. intros _.
        apply quiet_bind; [apply quiet_io|]. intros _.
        apply quiet_bind; [apply quiet_io|]. intros _.
        apply quiet_ret. }
    intros _. apply quiet_bind; [apply quiet_io|]. intros _.
    apply quiet_bind; [apply quiet_set_export|]. intros _.
    destruct dir, initial; try apply quiet_ret.
    apply quiet_bind; [apply quiet_io|]. intros. apply quiet_ret.
  - apply quiet_for_each. revert IH. apply Forall_impl. intros a Ha. apply Ha.
Qed.

Lemma quiet_add_event_detect c t cb bt : quiet (add_event_detect env c t cb bt).
Proof.
  unfold add_event_detect.
  apply quiet_bind; [apply quiet_check_configured|]. intros _.
  apply quiet_get. intros s Hs. rewrite Hs.
  apply quiet_bind; [destruct bt; apply quiet_ret|]. intros _.
  apply quiet_bind; [apply quiet_get_gpio_pin|]. intros pin.
  apply quiet_bind; [apply quiet_io|]. intros. apply quiet_ret.
Qed.

Lemma quiet_add_event_callback c cb bt : quiet (add_event_callback env c cb bt).
Proof.
  unfold add_event_callback.
  apply quiet_bind; [apply quiet_check_configured|]. intros _.
  apply quiet_get. intros s Hs. rewrite Hs.
  apply quiet_bind; [destruct bt; apply quiet_ret|]. intros _.
  apply quiet_bind; [apply quiet_get_gpio_pin|]. intros pin.
  apply quiet_bind; [apply quiet_io|]. intros. apply quiet_ret.
Qed.

End Quiet.

(** ** What a computation adds to the log *)

Section LogsOnly.
Variable env : environment.
Variable ok : event -> Prop.

Lemma logs_only_ret A (a : A) : logs_only ok (ret a).
Proof. intros w. exists []. cbn. now rewrite app_nil_r. Qed.

Lemma logs_only_raise A e : logs_only ok (@raise gpio A e).
Proof. intros w. exists []. cbn. now rewrite app_nil_r. Qed.

Lemma logs_only_bind A B (m : M gpio A) (f : A -> M gpio B) :
logs_only ok m -> (forall a, logs_only ok (f a)) -> logs_only ok (bind m f).
Proof.
intros Hm Hf w. unfold bind. destruct (Hm w) as (d1 & E1 & F1).
destruct (m w) as [[a|e] w1]; cbn [snd] in E1.
- destruct (Hf a w1) as (d2 & E2 & F2). exists (d1 ++ d2).
  rewrite E2, E1, app_assoc. split; [reflexivity|]. now apply Forall_app.
- exists d1. cbn [snd]. auto.
Qed.

Lemma logs_only_get A (f : gpio -> M gpio A) :
(forall s, logs_only ok (f s)) -> logs_only ok (bind get f).
Proof. intros Hf. apply logs_only_bind; [|exact Hf]. intros w. exists []. cbn. now rewrite app_nil_r. Qed.

Lemma logs_only_io c : (forall r, ok (Io c r)) -> logs_only ok (io env c).
Proof.
intros H w. exists [Io c (env (io_history (log w)) c)]. unfold io.
destruct (env (io_history (log w)) c) eqn:E; cbn [snd log];
  (split; [reflexivity|]); constructor; auto.
Qed.

Lemma logs_only_for_each X (f : X -> M gpio unit) l :
Forall (fun x => logs_only ok (f x)) l -> logs_only ok (for_each f l).
Proof.
induction 1 as [|x l Hx Hl IH]; cbn [for_each].
- apply logs_only_ret.
- apply logs_only_bind; [exact Hx|]. intros _. exact IH.
Qed.

Lemma logs_only_get_gpio_pin m c : logs_only ok (get_gpio_pin m c).
Proof.
unfold get_gpio_pin. apply logs_only_get. intros s.
destruct (mode_in m [BOARD]); [|apply logs_only_raise].
destruct m as [m|]; [|apply logs_only_raise].
destruct (_pin_map s m); [|apply logs_only_raise].
destruct (dict_get _ _ _); [apply logs_only_ret|apply logs_only_raise].
Qed.

Lemma logs_only_check_configured c d : logs_only ok (_check_configured c d).
Proof.
unfold _check_configured. apply logs_only_get. intros s.
destruct (dict_get _ _ _); [|apply logs_only_raise].
destruct d; [|apply logs_only_ret].
destruct (negb _); [apply logs_only_raise|apply logs_only_ret].
Qed.

End LogsOnly.

(** [output] calls nothing but [sysfs.output], and always with the [state]
    it was given, whole. *)
Lemma output_passes_state env state a :
  logs_only (fun ev => exists pin r, ev = Io (SysOutput pin state) r)
    (output env a state).
Proof.
  induction a as [c|l IH] using chan_arg_ind'; cbn [output].
  - apply logs_only_bind; [apply logs_only_check_configured|]. intros _.
    apply logs_only_get. intros s.
    apply logs_only_bind; [apply logs_only_get_gpio_pin|]. intros pin.
    apply logs_only_io. intros r. eauto.
  - apply logs_only_bind; [|intros; apply logs_only_ret].
    apply logs_only_for_each. revert IH. apply Forall_impl. intros a Ha.
    apply logs_only_bind; [exact Ha|]. intros. apply logs_only_ret.
Qed.

(* ================================================================== *)
(** * The claims *)

Import PWM.

(** ** PWM.change_frequency *)

Open Scope Q_scope.

(** The period in nanoseconds never grows when the frequency does. *)
Lemma period_ns_antitone f1 f2 p1 p2 :
  0 < f1 -> f1 <= f2 ->
  period_ns f1 = Ok p1 -> period_ns f2 = Ok p2 -> (p2 <= p1)%Z.
Proof.
  intros H1 H12. unfold period_ns, true_div, float_mul.
  destruct (Qeq_bool f1 0); [discriminate|].
  destruct (Qeq_bool f2 0); [discriminate|].
  destruct (Float64.b64 (1 / f1)) as [x1|] eqn:E1; [|discriminate].
  destruct (Float64.b64 (1 / f2)) as [x2|] eqn:E2; [|discriminate].
  destruct (Float64.b64 (x1 * _)) as [y1|] eqn:F1; [|discriminate].
  destruct (Float64.b64 (x2 * _)) as [y2|] eqn:F2; [|discriminate].
  intros [= <-] [= <-].
  apply Float64Facts.b64_Some in E1, E2, F1, F2. subst.
  apply Float64Facts.round_half_even_mono, Float64Facts.b64_round_mono.
  apply Qmult_le_compat_r; [|discriminate].
  apply Float64Facts.b64_round_mono.
  unfold Qdiv. rewrite !Qmult_1_l.
  apply Qle_shift_inv_l; [lra|].
  assert (0 < f2) by lra.
  rewrite Qmult_comm. apply Qle_shift_div_r; [assumption|]. lra.
Qed.

Example period_ns_samples :
  PWM.period_ns 1000 = Ok 1000000%Z /\
  PWM.period_ns 2000 = Ok 500000%Z /\
  PWM.period_ns 3 = Ok 333333333%Z /\
  PWM.period_ns 1024 = Ok 976562%Z /\
  PWM.period_ns 0 = Raise ZeroDivisionError /\
  PWM.duty_ns 50 500000 = Ok 250000%Z.
Proof. repeat split; vm_compute; reflexivity. Qed.

(** C1 (as amended).  [change_frequency] orders its two writes by the
    periods, so that the period in force never drops below the duty cycle:
    on a call that returns normally, from a positive frequency to a higher
    one (a period that is not longer) the duty cycle is written first and the
    period second; to a lower positive frequency the period is written first
    and the duty cycle second when the period in nanoseconds grows, and the
    duty cycle first when both frequencies round to the same period. *)
Theorem change_frequency_write_order env self f_new l0 w' :
  0 < frequency self ->
  0 < f_new ->
  run (change_frequency env f_new) (World self l0) = (Ok tt, w') ->
  exists p p_old d,
    period_ns f_new = Ok p /\
    period_ns (frequency self) = Ok p_old /\
    duty_ns (duty_cycle_percent self) p = Ok d /\
    (frequency self < f_new ->
       calls_of (log w') =
         calls_of l0 ++ [PWM_Duty_Cycle (chip self) (pin self) d;
                         PWM_Period (chip self) (pin self) p]) /\
    (f_new < frequency self -> (p_old <= p)%Z) /\
    (f_new < frequency self -> (p_old < p)%Z ->
       calls_of (log w') =
         calls_of l0 ++ [PWM_Period (chip self) (pin self) p;
                         PWM_Duty_Cycle (chip self) (pin self) d]) /\
    (f_new < frequency self -> p_old = p ->
       calls_of (log w') =
         calls_of l0 ++ [PWM_Duty_Cycle (chip self) (pin self) d;
                         PWM_Period (chip self) (pin self) p]).
Proof.
  intros Hold Hnew. unfold change_frequency. unfold_m.
  destruct (period_ns f_new) as [p|] eqn:Ep; [|discriminate].
  destruct (duty_ns (duty_cycle_percent self) p) as [d|] eqn:Ed; [|discriminate].
  destruct (period_ns (frequency self)) as [p_old|] eqn:Eo; [|discriminate].
  intros H. exists p, p_old, d. do 3 (split; [first [reflexivity | assumption]|]).
  destruct (p >? p_old)%Z eqn:Ecmp; exec; try discriminate;
    rewrite !calls_of_app; cbn [calls_of io_history map fst];
    rewrite <- ?app_assoc; cbn [app].
  - (* the new period is the longer one *)
    assert (Hgt : (p_old < p)%Z) by lia.
    split; [intros Hlt|split; [intros Hlt|split; [intros Hlt Hp|intros Hlt Hp]]];
      try reflexivity; try lia.
    assert (p <= p_old)%Z; [|lia].
    eapply (@period_ns_antitone (frequency self) f_new); eauto. lra.
  - assert (Hle : (p <= p_old)%Z) by lia.
    split; [intros Hlt|split; [intros Hlt|split; [intros Hlt Hp|intros Hlt Hp]]];
      try reflexivity; try lia.
    eapply (@period_ns_antitone f_new (frequency self)); eauto. lra.
Qed.

(** C1, witness: from 1000 Hz to 2000 Hz at 50 percent. *)
Lemma change_frequency_write_order_witness :
  calls_of (log (snd (run (change_frequency healthy 2000)
                        (World (Make 0 0 1000 50 false) [])))) =
    [PWM_Duty_Cycle 0 0 250000; PWM_Period 0 0 500000].
Proof.
  assert (Hrun : run (change_frequency healthy 2000)
                     (World (Make 0 0 1000 50 false) []) =
                 (Ok tt, World (Make 0 0 2000 50 false)
                           [Io (PWM_Duty_Cycle 0 0 250000) (Returns RNone);
                            Io (PWM_Period 0 0 500000) (Returns RNone)]))
    by (vm_compute; reflexivity).
  destruct (@change_frequency_write_order healthy (Make 0 0 1000 50 false) 2000 []
              _ eq_refl eq_refl Hrun)
    as (p & p_old & d & Hp & Ho & Hd & Hup & _).
  assert (Ep : period_ns 2000 = Ok 500000%Z) by (vm_compute; reflexivity).
  assert (Ed : duty_ns 50 500000 = Ok 250000%Z) by (vm_compute; reflexivity).
  rewrite Ep in Hp. injection Hp as <-.
  cbn [duty_cycle_percent] in Hd. rewrite Ed in Hd. injection Hd as <-.
  rewrite Hrun. exact (Hup eq_refl).
Defined.

(** C1, counterexample to the claim as stated: raising 1000 Hz to 2000 Hz
    writes the duty cycle before the period, and lowering 2000 Hz to 1000 Hz
    writes the period before the duty cycle. *)
Lemma change_frequency_claimed_order_fails :
  calls_of (log (snd (run (change_frequency healthy 2000)
                        (World (Make 0 0 1000 50 false) [])))) =
    [PWM_Duty_Cycle 0 0 250000; PWM_Period 0 0 500000] /\
  calls_of (log (snd (run (change_frequency healthy 1000)
                        (World (Make 0 0 2000 50 false) [])))) =
    [PWM_Period 0 0 1000000; PWM_Duty_Cycle 0 0 500000].
Proof. split; vm_compute; reflexivity. Qed.

Close Scope Q_scope.

(** ** Numbering schemes *)

(** C2 (the code departs from the claim).  A scheme other than [BOARD] is
    accepted by [setmode] and never translated: after a custom mapping is
    selected, and after [BCM] or [SUNXI] is, [get_gpio_pin] fails on its
    assertion for every channel, mapped or not; so does [setup] on channel 7
    after [setmode({7: 54})]. *)
Theorem custom_mapping_rejected env :
  (forall d c w,
      run (setmode (Mapping d) ;; s <- get ;; get_gpio_pin (_mode s) c) w =
        (Raise AssertionError,
         World (Gpio (_gpio_warnings (st w)) (Some CUSTOM) (_exports (st w)) d)
               (log w))) /\
  (forall c w,
      fst (run (setmode (Scheme BCM) ;; s <- get ;; get_gpio_pin (_mode s) c) w) =
        Raise AssertionError /\
      fst (run (setmode (Scheme SUNXI) ;; s <- get ;; get_gpio_pin (_mode s) c) w) =
        Raise AssertionError) /\
  run (setmode (Mapping [(ChInt 7, 54%Z)]) ;;
       setup env (One (ChInt 7)) IN None None) world_init =
    (Raise AssertionError,
     World (Gpio true (Some CUSTOM) [] [(ChInt 7, 54%Z)]) []).
Proof.
  split; [|split].
  - intros d c w. reflexivity.
  - intros c w. split; reflexivity.
  - reflexivity.
Qed.

(** ** output *)

(** C3 (the code departs from the claim).  Whatever the channels, [output]
    hands the [state] it was given, whole, to every [sysfs.output] call:
    [output([11, 12], (HIGH, LOW))] writes the tuple to channel 11 and again
    to channel 12, instead of [HIGH] and [LOW]. *)
Theorem output_list_passes_whole_value :
  (forall env a state, 
      logs_only (fun ev => exists pin r, ev = Io (SysOutput pin state) r)
        (output env a state)) /\
  run (setmode (Scheme BOARD) ;;
       setup healthy (Many [One (ChInt 11); One (ChInt 12)]) OUT None None ;;
       output healthy (Many [One (ChInt 11); One (ChInt 12)])
         (VTuple [HIGH; LOW])) world_init =
    (Ok RNone,
     World (Gpio true (Some BOARD) [(ChInt 11, OUT); (ChInt 12, OUT)] [])
       [Io (SysExport 138) (Returns RNone);
        Io (SysDirection 138 OUT) (Returns RNone);
        Io (SysExport 29) (Returns RNone);
        Io (SysDirection 29 OUT) (Returns RNone);
        Io (SysOutput 138 (VTuple [HIGH; LOW])) (Returns RNone);
        Io (SysOutput 29 (VTuple [HIGH; LOW])) (Returns RNone)]).
Proof. split; [intros; apply output_passes_state|reflexivity]. Qed.

(** ** setup and cleanup *)

(** C4.  After [setup(C, dir)] has returned, a second [setup] of [C] raises
    "already configured" and changes nothing but the warnings logged; after
    [cleanup(C)] has returned, [C] has no record and [setup(C, dir)] returns
    again, recording [dir], as soon as its export and its direction call
    return. *)
Theorem configure_twice_then_teardown env c dir initial pud w w1 :
  run (setup env (One c) dir initial pud) w = (Ok tt, w1) ->
  (forall dir' initial' pud',
      exists w1',
        run (setup env (One c) dir' initial' pud') w1
          = (Raise (RuntimeError (AlreadyConfigured c)), w1') /\
        st w1' = st w1 /\ io_history (log w1') = io_history (log w1)) /\
  (forall w2,
      run (cleanup env (Some (One c))) w1 = (Ok tt, w2) ->
      dict_get channel_eqb (_exports (st w2)) c = None /\
      exists pin,
        dict_get channel_eqb BOARD_pins c = Some pin /\
        forall v1 v2,
          env (io_history (log w2)) (SysExport pin) = Returns v1 ->
          env (io_history (log w2) ++ [(SysExport pin, Returns v1)])
              (SysDirection pin dir) = Returns v2 ->
          exists w3,
            run (setup env (One c) dir None None) w2 = (Ok tt, w3) /\
            dict_get channel_eqb (_exports (st w3)) c = Some dir).
Proof.
  intros H. apply setup_ok_inv in H. destruct H as (Hm & Hfree & [pin Hpin] & Hst).
  split.
  - intros dir' initial' pud'. cbn [setup]. unfold_m. rewrite Hst. cbn.
    rewrite dict_get_set_same.
    destruct pud', (_gpio_warnings (st w)) eqn:Hw; cbn;
      (eexists; split; [reflexivity|]); cbn; (split; [rewrite Hst; congruence|]);
      rewrite ?io_history_app; cbn; now rewrite ?app_nil_r.
  - intros w2 H2. cbn [cleanup] in H2. apply cleanup_one_ok_inv in H2.
    destruct H2 as [H2 _]. rewrite Hst in H2. cbn in H2.
    assert (Hnone : dict_get channel_eqb (_exports (st w2)) c = None).
    { rewrite H2. cbn. apply dict_get_del_same. }
    split; [exact Hnone|]. exists pin. split; [exact Hpin|].
    intros v1 v2 E1 E2. cbn [setup]. unfold_m.
    assert (Hm2 : _mode (st w2) = Some BOARD) by now rewrite H2.
    rewrite Hnone, Hm2. cbn [mode_in existsb mode_eqb orb _pin_map].
    rewrite Hpin. cbn. rewrite E1. cbn.
    rewrite io_history_app. cbn. rewrite E2. cbn.
    destruct dir; (eexists; split; [reflexivity|]); cbn; apply dict_get_set_same.
Qed.

(** C4, witness: channel 7 of the board as an input. *)
Lemma configure_twice_then_teardown_witness :
  (exists w1',
     run (setup healthy (One (ChInt 7)) IN None None)
         (World (Gpio true (Some BOARD) [(ChInt 7, IN)] [])
            [Io (SysExport 54) (Returns RNone);
             Io (SysDirection 54 IN) (Returns RNone)])
       = (Raise (RuntimeError (AlreadyConfigured (ChInt 7))), w1')) /\
  (exists w3,
     run (cleanup healthy (Some (One (ChInt 7))) ;;
          setup healthy (One (ChInt 7)) IN None None)
         (World (Gpio true (Some BOARD) [(ChInt 7, IN)] [])
            [Io (SysExport 54) (Returns RNone);
             Io (SysDirection 54 IN) (Returns RNone)])
       = (Ok tt, w3)).
Proof.
  destruct (@configure_twice_then_teardown healthy (ChInt 7) IN None None
              (World (Gpio true (Some BOARD) [] []) []) _ eq_refl) as [H1 H2].
  split.
  - destruct (H1 IN None None) as (w1' & E & _). exists w1'. exact E.
  - destruct (H2 _ eq_refl) as (_ & pin & Hp & H3).
    injection Hp as <-.
    destruct (H3 RNone RNone eq_refl eq_refl) as (w3 & E & _).
    exists w3. unfold run, bind. cbn [cleanup]. 
    change (cleanup_channel healthy (One (ChInt 7))
              (World (Gpio true (Some BOARD) [(ChInt 7, IN)] [])
                 [Io (SysExport 54) (Returns RNone);
                  Io (SysDirection 54 IN) (Returns RNone)]))
      with (Ok tt,
            World (Gpio true (Some BOARD) [] [])
              [Io (SysExport 54) (Returns RNone);
               Io (SysDirection 54 IN) (Returns RNone);
               Io (EvCleanup 54) (Returns RNone);
               Io (SysUnexport 54) (Returns RNone)]).
    exact E.
Defined.

(** C5.  In [setup] of a single free channel of the board whose first
    export raises [e]: when [e] is not [OSError] 16 it propagates as it is,
    with nothing attempted after it and the globals untouched; when it is,
    the "in use" warning is logged if warnings are enabled, the pin is
    unexported, and the export is attempted once more and no further: an
    error of the unexport or of the second export propagates. *)
Theorem setup_busy_retry_once env c dir initial pud w pin r w' e :
  _mode (st w) = Some BOARD ->
  dict_get channel_eqb (_exports (st w)) c = None ->
  dict_get channel_eqb BOARD_pins c = Some pin ->
  run (setup env (One c) dir initial pud) w = (r, w') ->
  env (io_history (log w)) (SysExport pin) = Raises e ->
  let first_attempt :=
    log w ++ warned (is_some pud && _gpio_warnings (st w)) PullUpDownUnsupported
          ++ [Io (SysExport pin) (Raises e)] in
  (e <> OSError 16 ->
     r = Raise e /\ log w' = first_attempt /\ st w' = st w) /\
  (e = OSError 16 ->
     exists rest,
       log w' = first_attempt
                  ++ warned (_gpio_warnings (st w)) (ChannelInUse c) ++ rest /\
       ((exists e1, rest = [Io (SysUnexport pin) (Raises e1)] /\
                    r = Raise e1 /\ st w' = st w) \/
        (exists v e2, rest = [Io (SysUnexport pin) (Returns v);
                              Io (SysExport pin) (Raises e2)] /\
                      r = Raise e2 /\ st w' = st w) \/
        (exists v v' tail post,
            rest = Io (SysUnexport pin) (Returns v)
                     :: Io (SysExport pin) (Returns v') :: tail /\
            calls_of tail ++ post =
              SysDirection pin dir ::
                match dir, initial with
                | OUT, Some x => [SysOutput pin x]
                | _, _ => []
                end))).
Proof.
  intros Hmode Hfree Hpin Hrun Henv first_attempt. subst first_attempt.
  cbn [setup] in Hrun. unfold_m. rewrite Hmode, Hfree in Hrun.
  cbn [mode_in existsb mode_eqb orb _pin_map] in Hrun. rewrite Hpin in Hrun.
  assert (Hh : forall b x, io_history (log w ++ warned b x) = io_history (log w)).
  { intros [] x; cbn; [|now rewrite app_nil_r].
    rewrite io_history_app. cbn. now rewrite app_nil_r. }
  split.
  - intros Hne.
    destruct pud, (_gpio_warnings (st w)); cbn [andb warned] in *;
      unfold_m; rewrite ?io_history_app, ?app_nil_r in Hrun; cbn [io_history] in Hrun;
      rewrite ?app_nil_r in Hrun; rewrite Henv in Hrun;
      (destruct e as [| | |n| | | |]; try (injection Hrun as <- <-; repeat split; now rewrite <- ?app_assoc));
      (destruct (Z.eqb_spec n 16); [subst; congruence|]);
      injection Hrun as <- <-; repeat split; now rewrite <- ?app_assoc.
  - intros ->.
    destruct pud, (_gpio_warnings (st w)); cbn [andb warned] in *;
      unfold_m; rewrite ?io_history_app, ?app_nil_r in Hrun; cbn [io_history] in Hrun;
      rewrite ?app_nil_r in Hrun; rewrite Henv in Hrun; cbn [Z.eqb Pos.eqb] in Hrun;
      unfold_m; exec; eexists; (split; [rewrite <- ?app_assoc; cbn [app]; reflexivity|]).
    all: try (left; eexists; repeat split; reflexivity).
    all: try (right; left; do 2 eexists; repeat split; reflexivity).
    all: right; right; do 4 eexists; (split; [reflexivity|]).
    all: rewrite ?calls_of_app; cbn.
    all: try (instantiate (1 := []); reflexivity).
    all: try reflexivity.
Qed.

(** C5, witness: channel 7, busy at the first export. *)
Lemma setup_busy_retry_once_witness :
  exists rest,
    log (snd (run (setup (scripted [Raises (OSError 16)]) (One (ChInt 7)) IN None None)
                (World (Gpio true (Some BOARD) [] []) []))) =
      [Io (SysExport 54) (Raises (OSError 16)); Warn (ChannelInUse (ChInt 7))] ++ rest.
Proof.
  destruct (@setup_busy_retry_once (scripted [Raises (OSError 16)]) (ChInt 7) IN None None
              (World (Gpio true (Some BOARD) [] []) []) 54 _ _ (OSError 16)
              eq_refl eq_refl eq_refl eq_refl eq_refl) as [_ H].
  destruct (H eq_refl) as (rest & Hlog & _).
  exists rest. exact Hlog.
Defined.

(** C6.  When [cleanup()] returns, no channel has a record left, each
    channel that had one got its edge watcher removed and its pin unexported
    (in the order of configuration), warnings are enabled and no scheme is
    selected: any [setup] raises "Mode has not been set", until [setmode]
    selects a scheme again. *)
Theorem cleanup_all env w w' :
  run (cleanup env None) w = (Ok tt, w') ->
  _exports (st w') = [] /\
  _gpio_warnings (st w') = true /\
  _mode (st w') = None /\
  (exists pins,
      Forall2 (fun k p => dict_get channel_eqb BOARD_pins k = Some p)
        (dict_keys (_exports (st w))) pins /\
      calls_of (log w') =
        calls_of (log w) ++ flat_map (fun p => [EvCleanup p; SysUnexport p]) pins) /\
  (forall a dir initial pud,
      run (setup env a dir initial pud) w' = (Raise (RuntimeError ModeNotSet), w')) /\
  (forall m, _mode (st (snd (run (setmode (Scheme m)) w'))) = Some m).
Proof.
  unfold cleanup. unfold run, bind at 1. unfold get at 1. cbn beta iota.
  unfold bind at 1. rewrite cleanup_channel_Many.
  destruct (for_each _ _ w) as [[[]|e] w1] eqn:E; [|discriminate].
  apply cleanup_each_ok in E. destruct E as (Hst & pins & HF & Hcalls).
  unfold_m. intros H. inversion H; subst; clear H.
  cbn [st log _exports _gpio_warnings _mode]. rewrite Hst.
  cbn [_exports]. repeat split.
  - apply dict_del_all. auto.
  - exists pins. split; assumption.
  - intros a dir initial pud. destruct a; reflexivity.
  - intros []; reflexivity.
Qed.

(** C6, witness: channels 7 and 11 configured, warnings disabled. *)
Lemma cleanup_all_witness :
  st (snd (run (cleanup healthy None)
             (World (Gpio false (Some BOARD) [(ChInt 7, IN); (ChInt 11, OUT)] []) [])))
    = Gpio true None [] [] /\
  calls_of (log (snd (run (cleanup healthy None)
             (World (Gpio false (Some BOARD) [(ChInt 7, IN); (ChInt 11, OUT)] []) []))))
    = [EvCleanup 54; SysUnexport 54; EvCleanup 138; SysUnexport 138].
Proof.
  assert (Hrun : run (cleanup healthy None)
                   (World (Gpio false (Some BOARD)
                             [(ChInt 7, IN); (ChInt 11, OUT)] []) []) =
                 (Ok tt,
                  World (Gpio true None [] [])
                    [Io (EvCleanup 54) (Returns RNone);
                     Io (SysUnexport 54) (Returns RNone);
                     Io (EvCleanup 138) (Returns RNone);
                     Io (SysUnexport 138) (Returns RNone)]))
    by (vm_compute; reflexivity).
  destruct (cleanup_all _ _ Hrun) as (He & Hw & Hm & _).
  rewrite Hrun. split; reflexivity.
Defined.

(** ** Warnings *)

(** C7 (the code departs from the claim).  The warnings of the GPIO
    functions obey the toggle: with it off, [setup], [add_event_detect] and
    [add_event_callback] log no warning (pull up/down, bouncetime, channel
    in use), and a warning never changes what these calls do: their result,
    the records and the collaborator calls are the same whatever the toggle.
    The constructor of [PWM] does not: its handler of a busy export is that
    of [setup] without the test of the toggle, so that it logs its "in use"
    warning whatever the toggle, and goes on to unexport the pin; after
    [setwarnings(False)], [PWM(0, 1, 1000, 50)] on a busy pin still logs the
    warning, where [setup] on a busy channel logs none. *)
Theorem warnings_toggle env :
  (forall a dir initial pud,
      quiet (setup env a dir initial pud) /\
      alike eq (setup env a dir initial pud) (setup env a dir initial pud)) /\
  (forall c t cb bouncetime,
      quiet (add_event_detect env c t cb bouncetime) /\
      alike eq (add_event_detect env c t cb bouncetime)
               (add_event_detect env c t cb bouncetime)) /\
  (forall c cb bouncetime,
      quiet (add_event_callback env c cb bouncetime) /\
      alike eq (add_event_callback env c cb bouncetime)
               (add_event_callback env c cb bouncetime)) /\
  (forall chip pin hz percent invert w,
      env (io_history (log w)) (PWM_Export chip pin) = Raises (OSError 16) ->
      exists r rest,
        log (snd (run (PWM.__init__ env chip pin hz percent invert) w)) =
          log w ++ [Io (PWM_Export chip pin) (Raises (OSError 16));
                    Warn (PwmPinInUse pin);
                    Io (PWM_Unexport chip pin) r] ++ rest) /\
  run (setwarnings false ;;
       PWM.__init__ (scripted [Raises (OSError 16)]) 0 1 1000 50 false)
      world_init =
    (Ok (Make 0 1 1000 50 false),
     World (Gpio false None [] [])
       [Io (PWM_Export 0 1) (Raises (OSError 16));
        Warn (PwmPinInUse 1);
        Io (PWM_Unexport 0 1) (Returns RNone);
        Io (PWM_Export 0 1) (Returns RNone)]) /\
  run (setwarnings false ;; setmode (Scheme BOARD) ;;
       setup (scripted [Raises (OSError 16)]) (One (ChInt 7)) IN None None)
      world_init =
    (Ok tt,
     World (Gpio false (Some BOARD) [(ChInt 7, IN)] [])
       [Io (SysExport 54) (Raises (OSError 16));
        Io (SysUnexport 54) (Returns RNone);
        Io (SysExport 54) (Returns RNone);
        Io (SysDirection 54 IN) (Returns RNone)]).
Proof.
  split; [|split; [|split; [|split; [|split]]]].
  - intros. split; [apply quiet_setup|apply alike_setup].
  - intros. split; [apply quiet_add_event_detect|apply alike_add_event_detect].
  - intros. split; [apply quiet_add_event_callback|apply alike_add_event_callback].
  - intros chip pin hz percent invert w H.
    unfold PWM.__init__. unfold_m. rewrite H. cbn [Z.eqb Pos.eqb st log].
    repeat match goal with
           | |- context [match env ?h ?c with _ => _ end] =>
               destruct (env h c) eqn:?; cbn [st log fst snd]
           end.
    all: do 2 eexists; rewrite <- ?app_assoc; cbn [app]; try reflexivity.
    all: instantiate (1 := []); reflexivity.
  - reflexivity.
  - reflexivity.
Qed.

(** C7, witness: a busy PWM export with warnings disabled. *)
Lemma warnings_toggle_witness :
  exists r rest,
    log (snd (run (PWM.__init__ (scripted [Raises (OSError 16)]) 0 1 1000 50 false)
                (World (Gpio false None [] []) []))) =
      [Io (PWM_Export 0 1) (Raises (OSError 16));
       Warn (PwmPinInUse 1);
       Io (PWM_Unexport 0 1) r] ++ rest.
Proof.
  destruct (warnings_toggle (scripted [Raises (OSError 16)])) as (_ & _ & _ & H & _).
  apply (H 0%Z 1%Z 1000%Q 50%Q false (World (Gpio false None [] []) [])).
  reflexivity.
Defined.

(** ** PWM.pwm_polarity *)

(** C8 (the code departs from the claim).  [pwm_polarity] disables the
    output, writes the negation of [invert_polarity] and enables the output,
    but leaves the object as it was, [invert_polarity] included: a second call
    writes the same polarity again, and the polarity in force stays inverted
    instead of returning to the original one. *)
Theorem pwm_polarity_twice_does_not_restore chip pin hz percent b l0 :
  (forall env w, st (snd (run (pwm_polarity env) w)) = st w) /\
  run (pwm_polarity healthy ;; pwm_polarity healthy)
      (World (Make chip pin hz percent b) l0) =
    (Ok tt,
     World (Make chip pin hz percent b)
       (l0 ++ [Io (PWM_Disable chip pin) (Returns RNone);
               Io (PWM_Polarity chip pin (negb b)) (Returns RNone);
               Io (PWM_Enable chip pin) (Returns RNone);
               Io (PWM_Disable chip pin) (Returns RNone);
               Io (PWM_Polarity chip pin (negb b)) (Returns RNone);
               Io (PWM_Enable chip pin) (Returns RNone)])) /\
  active_polarity chip pin
    [Io (PWM_Disable chip pin) (Returns RNone);
     Io (PWM_Polarity chip pin (negb b)) (Returns RNone);
     Io (PWM_Enable chip pin) (Returns RNone);
     Io (PWM_Disable chip pin) (Returns RNone);
     Io (PWM_Polarity chip pin (negb b)) (Returns RNone);
     Io (PWM_Enable chip pin) (Returns RNone)] (Some b) = Some (negb b).
Proof.
  split; [|split].
  - intros env w. unfold pwm_polarity. unfold_m.
    repeat match goal with
           | |- context [match env ?h ?c with _ => _ end] =>
               destruct (env h c); cbn [st log fst snd]
           end; reflexivity.
  - unfold pwm_polarity. unfold_m. cbn. now rewrite <- !app_assoc.
  - cbn. now rewrite !Z.eqb_refl.
Qed.

(** ** input *)

(** C9.  On a configured channel, whatever its direction ([OUT] included),
    the guard of [input] passes, and on a channel of the board [input] reads
    the pin and returns what [sysfs.input] returns. *)
Theorem input_ignores_direction env c d w :
  dict_get channel_eqb (_exports (st w)) c = Some d ->
  run (_check_configured c None) w = (Ok tt, w) /\
  (forall pin,
      _mode (st w) = Some BOARD ->
      dict_get channel_eqb BOARD_pins c = Some pin ->
      run (input env c) w =
        (match env (io_history (log w)) (SysInput pin) with
         | Returns v => Ok v
         | Raises e => Raise e
         end,
         World (st w)
           (log w ++ [Io (SysInput pin) (env (io_history (log w)) (SysInput pin))]))).
Proof.
  intros H. split.
  - unfold_m. now rewrite H.
  - intros pin Hm Hp. unfold input. unfold_m. rewrite H, Hm.
    cbn [mode_in existsb mode_eqb orb _pin_map]. rewrite Hp.
    destruct w as [s l]; cbn.
    destruct (env (io_history l) (SysInput pin)); reflexivity.
Qed.

(** C9, witness: reading channel 7 configured as an output. *)
Lemma input_ignores_direction_witness :
  run (input healthy (ChInt 7))
      (World (Gpio true (Some BOARD) [(ChInt 7, OUT)] []) []) =
    (Ok (RInt 0),
     World (Gpio true (Some BOARD) [(ChInt 7, OUT)] [])
       [Io (SysInput 54) (Returns (RInt 0))]).
Proof.
  destruct (@input_ignores_direction healthy (ChInt 7) OUT
              (World (Gpio true (Some BOARD) [(ChInt 7, OUT)] []) []) eq_refl)
    as [_ H].
  exact (H 54%Z eq_refl eq_refl).
Defined.

(** ** Error atomicity of setup *)

(** C10.  When [setup] of a single channel raises, the globals (the records
    among them) are as before the call: for no scheme, a configured
    channel, a channel that does not translate, and an error of the export,
    of its retry or of the direction call.  The one raise that leaves a
    record is that of the initial-value write, which follows the recording
    and needs [initial] given and direction [OUT]. *)
Theorem setup_error_atomic env c dir initial pud w e w' :
  run (setup env (One c) dir initial pud) w = (Raise e, w') ->
  st w' = st w \/
  (exists v pin l,
      initial = Some v /\ dir = OUT /\
      log w' = l ++ [Io (SysOutput pin v) (Raises e)] /\
      _exports (st w') = dict_set channel_eqb (_exports (st w)) c OUT).
Proof.
  cbn [setup]. unfold_m. cbn [st log].
  intros H.
  exec; try (left; reflexivity); try discriminate.
  all: right; do 3 eexists; repeat split; reflexivity.
Qed.

(** C10, witness: the direction call fails with errno 13. *)
Lemma setup_error_atomic_witness :
  st (snd (run (setup (scripted [Returns RNone; Raises (OSError 13)])
                  (One (ChInt 7)) OUT None None)
             (World (Gpio true (Some BOARD) [] []) []))) =
    Gpio true (Some BOARD) [] [].
Proof.
  destruct (@setup_error_atomic (scripted [Returns RNone; Raises (OSError 13)])
              (ChInt 7) OUT None None
              (World (Gpio true (Some BOARD) [] []) []) (OSError 13) _ eq_refl)
    as [H|(v & pin & l & Hv & _)].
  - exact H.
  - discriminate Hv.
Defined.

(* ================================================================== *)
(** * Further properties *)

(** ** Guards *)

(** X1.  The guard of every operation that takes a configured channel runs
    first.  A channel without record is refused by all of them; a channel
    configured as an output is refused by the five edge operations, and one
    configured as an input by [output].  In each case nothing is called,
    logged or changed, not even the bouncetime warning issued. *)
Theorem channel_guards env c w :
  match dict_get channel_eqb (_exports (st w)) c with
  | None =>
      (forall v, run (output env (One c) v) w
                 = (Raise (RuntimeError (NotConfigured c)), w)) /\
      run (input env c) w = (Raise (RuntimeError (NotConfigured c)), w) /\
      (forall t n, run (wait_for_edge env c t n) w
                   = (Raise (RuntimeError (NotConfigured c)), w)) /\
      (forall t cb b, run (add_event_detect env c t cb b) w
                      = (Raise (RuntimeError (NotConfigured c)), w)) /\
      run (remove_event_detect env c) w
        = (Raise (RuntimeError (NotConfigured c)), w) /\
      (forall cb b, run (add_event_callback env c cb b) w
                    = (Raise (RuntimeError (NotConfigured c)), w)) /\
      run (event_detected env c) w
        = (Raise (RuntimeError (NotConfigured c)), w) /\
      run (cleanup env (Some (One c))) w
        = (Raise (RuntimeError (NotConfigured c)), w)
  | Some OUT =>
      (forall t n, run (wait_for_edge env c t n) w
                   = (Raise (RuntimeError (ConfiguredFor c OUT)), w)) /\
      (forall t cb b, run (add_event_detect env c t cb b) w
                      = (Raise (RuntimeError (ConfiguredFor c OUT)), w)) /\
      run (remove_event_detect env c) w
        = (Raise (RuntimeError (ConfiguredFor c OUT)), w) /\
      (forall cb b, run (add_event_callback env c cb b) w
                    = (Raise (RuntimeError (ConfiguredFor c OUT)), w)) /\
      run (event_detected env c) w
        = (Raise (RuntimeError (ConfiguredFor c OUT)), w)
  | Some IN =>
      forall v, run (output env (One c) v) w
                = (Raise (RuntimeError (ConfiguredFor c IN)), w)
  end.
Proof.
  destruct (dict_get channel_eqb (_exports (st w)) c) as [[]|] eqn:H.
  - intros v. cbn [output]. unfold_m. rewrite H. reflexivity.
  - repeat split; intros;
      unfold wait_for_edge, add_event_detect, remove_event_detect,
        add_event_callback, event_detected;
      unfold_m; rewrite H; reflexivity.
  - repeat split; intros;
      unfold input, wait_for_edge, add_event_detect, remove_event_detect,
        add_event_callback, event_detected, cleanup;
      cbn [output cleanup_channel]; unfold_m; rewrite H; reflexivity.
Qed.

(** ** cleanup of one channel *)

Lemma dict_get_set_other (V : Type) (d : dict channel V) k k' v :
  k' <> k ->
  dict_get channel_eqb (dict_set channel_eqb d k v) k' = dict_get channel_eqb d k'.
Proof.
  intros Hne. induction d as [|[k0 v0] d IH]; cbn.
  - destruct (channel_eqb k k') eqn:E; [|reflexivity].
    apply channel_eqb_eq in E. congruence.
  - destruct (channel_eqb k0 k) eqn:E; cbn.
    + apply channel_eqb_eq in E. subst k0.
      destruct (channel_eqb k k') eqn:E'; [|reflexivity].
      apply channel_eqb_eq in E'. congruence.
    + now rewrite IH.
Qed.

(** X2.  [cleanup(c)] removes the edge watcher, then unexports, then deletes
    the record: when it raises, the globals are as before and nothing is
    attempted after the failing step; when it returns, exactly these two calls
    were made, on the pin of [c], and returned, the record of [c] is gone,
    every other record is as before, and a second [cleanup(c)] raises
    "not configured". *)
Theorem cleanup_single_outcome env c w r w' :
  run (cleanup env (Some (One c))) w = (r, w') ->
  match r with
  | Raise e =>
      st w' = st w /\
      (w' = w \/
       (exists pin, log w' = log w ++ [Io (EvCleanup pin) (Raises e)]) \/
       (exists pin v, log w' = log w ++ [Io (EvCleanup pin) (Returns v);
                                        Io (SysUnexport pin) (Raises e)]))
  | Ok _ =>
      dict_get channel_eqb (_exports (st w')) c = None /\
      (forall c', c' <> c ->
          dict_get channel_eqb (_exports (st w')) c'
          = dict_get channel_eqb (_exports (st w)) c') /\
      _mode (st w') = _mode (st w) /\
      _gpio_warnings (st w') = _gpio_warnings (st w) /\
      (exists pin v v0,
          dict_get channel_eqb BOARD_pins c = Some pin /\
          log w' = log w ++ [Io (EvCleanup pin) (Returns v);
                             Io (SysUnexport pin) (Returns v0)]) /\
      run (cleanup env (Some (One c))) w'
        = (Raise (RuntimeError (NotConfigured c)), w')
  end.
Proof.
  intros H. destruct r as [[]|e].
  - pose proof (cleanup_one_ok_inv _ _ _ H)
      as (Hst & pin & v & v0 & _ & Hpin & Hlog).
    assert (Hnone : dict_get channel_eqb (_exports (st w')) c = None).
    { rewrite Hst. cbn. apply dict_get_del_same. }
    split; [exact Hnone|]. split; [|split; [|split; [|split]]].
    + intros c' Hne. rewrite Hst. cbn. now apply dict_get_del_other.
    + now rewrite Hst.
    + now rewrite Hst.
    + exists pin, v, v0. split; [exact Hpin|exact Hlog].
    + cbn [cleanup cleanup_channel]. unfold_m. rewrite Hnone. reflexivity.
  - cbn [cleanup cleanup_channel] in H. unfold_m. exec; try discriminate.
    all: split; [reflexivity|].
    all: try (left; reflexivity).
    all: try (right; left; eexists; reflexivity).
    all: right; right; do 2 eexists; cbn; now rewrite <- app_assoc.
Qed.

(** X2, witness: the unexport fails after the watcher was removed. *)
Lemma cleanup_single_outcome_witness :
  st (snd (run (cleanup (scripted [Returns RNone; Raises (OSError 5)])
                  (Some (One (ChInt 7))))
             (World (Gpio true (Some BOARD) [(ChInt 7, IN)] []) [])))
  = Gpio true (Some BOARD) [(ChInt 7, IN)] [].
Proof.
  pose proof (@cleanup_single_outcome (scripted [Returns RNone; Raises (OSError 5)])
                (ChInt 7) (World (Gpio true (Some BOARD) [(ChInt 7, IN)] []) [])
                (Raise (OSError 5)) _ eq_refl) as [H _].
  exact H.
Defined.

Lemma for_each_app S X (f : X -> M S unit) l1 l2 w :
  for_each f (l1 ++ l2) w =
  match for_each f l1 w with
  | (Ok _, w1) => for_each f l2 w1
  | (Raise e, w1) => (Raise e, w1)
  end.
Proof.
  revert w. induction l1 as [|x l1 IH]; intros w; cbn [app].
  - reflexivity.
  - rewrite !for_each_cons. destruct (f x w) as [[[]|e] w1]; [apply IH|reflexivity].
Qed.

Lemma cleanup_arg_ind' (P : cleanup_arg -> Prop) :
  P ArgNone ->
  (forall c, P (ArgOne c)) ->
  (forall l, Forall P l -> P (ArgMany l)) ->
  forall a, P a.
Proof.
  intros HN H1 HM. fix IH 1. intros [|c|l]; [exact HN|apply H1|].
  apply HM. induction l as [|a l IHl]; constructor; [apply IH|exact IHl].
Qed.

(** On an argument without [None], [cleanup_any] is [cleanup]. *)
Lemma cleanup_any_arg_of env a w :
  cleanup_any env (arg_of a) w = cleanup env (Some a) w.
Proof.
  unfold cleanup. revert w.
  induction a as [c|l IH] using chan_arg_ind'; intros w; [reflexivity|].
  cbn [arg_of cleanup_any cleanup_channel]. revert w.
  induction IH as [|a l Ha Hl IHl]; intros w; [reflexivity|].
  cbn [map]. rewrite !for_each_cons, Ha.
  destruct (cleanup_channel env a w) as [[[]|e] w1]; [apply IHl|reflexivity].
Qed.

(** A [cleanup()] that returns leaves no record, no scheme, and the
    warnings on. *)
Lemma cleanup_none_ok env w w' :
  cleanup env None w = (Ok tt, w') ->
  _exports (st w') = [] /\ _mode (st w') = None /\
  _gpio_warnings (st w') = true.
Proof.
  unfold cleanup, bind at 1. unfold get at 1. cbn beta iota.
  unfold bind at 1. rewrite cleanup_channel_Many.
  destruct (for_each _ _ w) as [[[]|e] w1] eqn:E; [|discriminate].
  apply cleanup_each_ok in E. destruct E as [E _].
  unfold_m. intros H. inversion H; subst; clear H.
  cbn [st _exports _mode _gpio_warnings]. rewrite E. cbn [_exports].
  rewrite dict_del_all by auto. auto.
Qed.

Section TouchesOnly.
Variable env : environment.

Lemma touches_only_ret A cs (a : A) : touches_only cs (ret a).
Proof. intros w. cbn. auto. Qed.

Lemma touches_only_raise A cs e : touches_only cs (@raise gpio A e).
Proof. intros w. cbn. auto. Qed.

Lemma touches_only_bind A B cs (m : M gpio A) (f : A -> M gpio B) :
  touches_only cs m -> (forall a, touches_only cs (f a)) ->
  touches_only cs (bind m f).
Proof.
  intros Hm Hf w. unfold bind. specialize (Hm w).
  destruct (m w) as [[a|e] w1]; cbn [snd] in *; [|exact Hm].
  destruct Hm as (H1 & H2 & H3 & H4). destruct (Hf a w1) as (G1 & G2 & G3 & G4).
  repeat split; try congruence. intros c Hc. rewrite G4, H4; auto.
Qed.

Lemma touches_only_get A cs (f : gpio -> M gpio A) :
  (forall s, touches_only cs (f s)) -> touches_only cs (bind get f).
Proof.
  intros Hf. apply touches_only_bind; [|exact Hf]. intros w. cbn. auto.
Qed.

Lemma touches_only_io cs c : touches_only cs (io env c).
Proof.
  intros w. unfold io. destruct (env (io_history (log w)) c); cbn; auto.
Qed.

Lemma touches_only_warn cs b x : touches_only cs (when b (warn x)).
Proof. intros w. destruct b; cbn; auto. Qed.

Lemma touches_only_try A cs (m : M gpio A) h :
  touches_only cs m -> (forall n, touches_only cs (h n)) ->
  touches_only cs (try_except_OSError m h).
Proof.
  intros Hm Hh w. unfold try_except_OSError. specialize (Hm w).
  destruct (m w) as [[a|e] w1]; cbn [snd] in *; [exact Hm|].
  destruct e; try exact Hm.
  destruct Hm as (H1 & H2 & H3 & H4). destruct (Hh errno w1) as (G1 & G2 & G3 & G4).
  repeat split; try congruence. intros c Hc. rewrite G4, H4; auto.
Qed.

Lemma touches_only_incl A cs cs' (m : M gpio A) :
  incl cs cs' -> touches_only cs m -> touches_only cs' m.
Proof.
  intros Hi Hm w. destruct (Hm w) as (H1 & H2 & H3 & H4).
  repeat split; auto.
Qed.

Lemma touches_only_for_each X cs (f : X -> M gpio unit) l :
  Forall (fun x => touches_only cs (f x)) l -> touches_only cs (for_each f l).
Proof.
  induction 1 as [|x l Hx Hl IH]; cbn [for_each].
  - apply touches_only_ret.
  - apply touches_only_bind; [exact Hx|]. intros _. exact IH.
Qed.

Lemma touches_only_get_gpio_pin cs m c : touches_only cs (get_gpio_pin m c).
Proof.
  unfold get_gpio_pin. apply touches_only_get. intros s.
  destruct (mode_in m [BOARD]); [|apply touches_only_raise].
  destruct m as [m|]; [|apply touches_only_raise].
  destruct (_pin_map s m); [|apply touches_only_raise].
  destruct (dict_get _ _ _); [apply touches_only_ret|apply touches_only_raise].
Qed.

Lemma touches_only_check_configured cs c d :
  touches_only cs (_check_configured c d).
Proof.
  unfold _check_configured. apply touches_only_get. intros s.
  destruct (dict_get _ _ _); [|apply touches_only_raise].
  destruct d; [|apply touches_only_ret].
  destruct (negb _); [apply touches_only_raise|apply touches_only_ret].
Qed.

Lemma touches_only_set_export c d : touches_only [c] (set_export c d).
Proof.
  intros w. cbn. repeat split. intros c' Hc'.
  apply dict_get_set_other. intros ->. apply Hc'. now left.
Qed.

Lemma touches_only_del_export c : touches_only [c] (del_export c).
Proof.
  intros w. cbn. repeat split. intros c' Hc'.
  apply dict_get_del_other. intros ->. apply Hc'. now left.
Qed.

Lemma touches_only_setup a : forall dir initial pud,
  touches_only (channels_of a) (setup env a dir initial pud).
Proof.
  induction a as [c|l IH] using chan_arg_ind'; intros dir initial pud;
    cbn [setup channels_of]; apply touches_only_get; intros s;
    (destruct (_mode s); [|apply touches_only_raise]);
    (apply touches_only_bind; [destruct pud; cbn [is_some when];
                               [apply touches_only_warn|apply touches_only_ret]|]);
    intros _.
  - destruct (dict_mem _ _ _); [apply touches_only_raise|].
    apply touches_only_bind; [apply touches_only_get_gpio_pin|]. intros pin.
    apply touches_only_bind.
    { apply touches_only_try.
      - apply touches_only_bind; [apply touches_only_io|]. intros.
        apply touches_only_ret.
      - intros n. destruct (n =? 16)%Z; [|apply touches_only_raise].
        apply touches_only_bind; [apply touches_only_warn|]. intros _.
        apply touches_only_bind; [apply touches_only_io|]. intros _.
        apply touches_only_bind; [apply touches_only_io|]. intros _.
        apply touches_only_ret. }
    intros _. apply touches_only_bind; [apply touches_only_io|]. intros _.
    apply touches_only_bind; [apply touches_only_set_export|]. intros _.
    destruct dir, initial; try apply touches_only_ret.
    apply touches_only_bind; [apply touches_only_io|]. intros.
    apply touches_only_ret.
  - apply touches_only_for_each. rewrite Forall_forall in *. intros a Ha.
    eapply touches_only_incl; [|apply IH, Ha].
    intros c Hc. apply in_flat_map. eauto.
Qed.

Lemma touches_only_cleanup_channel a :
  touches_only (channels_of a) (cleanup_channel env a).
Proof.
  induction a as [c|l IH] using chan_arg_ind'; cbn [cleanup_channel channels_of].
  - apply touches_only_bind; [apply touches_only_check_configured|]. intros _.
    apply touches_only_get. intros s.
    apply touches_only_bind; [apply touches_only_get_gpio_pin|]. intros pin.
    apply touches_only_bind; [apply touches_only_io|]. intros _.
    apply touches_only_bind; [apply touches_only_io|]. intros _.
    apply touches_only_del_export.
  - apply touches_only_for_each. rewrite Forall_forall in *. intros a Ha.
    eapply touches_only_incl; [|apply IH, Ha].
    intros c Hc. apply in_flat_map. eauto.
Qed.

Lemma touches_only_output a state : touches_only [] (output env a state).
Proof.
  induction a as [c|l IH] using chan_arg_ind'; cbn [output].
  - apply touches_only_bind; [apply touches_only_check_configured|]. intros _.
    apply touches_only_get. intros s.
    apply touches_only_bind; [apply touches_only_get_gpio_pin|]. intros pin.
    apply touches_only_io.
  - apply touches_only_bind; [|intros; apply touches_only_ret].
    apply touches_only_for_each. revert IH. apply Forall_impl. intros a Ha.
    apply touches_only_bind; [exact Ha|]. intros. apply touches_only_ret.
Qed.

Lemma touches_only_input c : touches_only [] (input env c).
Proof.
  unfold input.
  apply touches_only_bind; [apply touches_only_check_configured|]. intros _.
  apply touches_only_get. intros s.
  apply touches_only_bind; [apply touches_only_get_gpio_pin|]. intros pin.
  apply touches_only_io.
Qed.

Lemma touches_only_wait_for_edge c t n : touches_only [] (wait_for_edge env c t n).
Proof.
  unfold wait_for_edge.
  apply touches_only_bind; [apply touches_only_check_configured|]. intros _.
  apply touches_only_get. intros s.
  apply touches_only_bind; [apply touches_only_get_gpio_pin|]. intros pin.
  apply touches_only_bind; [apply touches_only_io|].
  intros []; apply touches_only_ret.
Qed.

Lemma touches_only_add_event_detect c t cb b :
  touches_only [] (add_event_detect env c t cb b).
Proof.
  unfold add_event_detect.
  apply touches_only_bind; [apply touches_only_check_configured|]. intros _.
  apply touches_only_get. intros s.
  apply touches_only_bind;
    [destruct b; cbn [is_some when];
     [apply touches_only_warn|apply touches_only_ret]|]. intros _.
  apply touches_only_bind; [apply touches_only_get_gpio_pin|]. intros pin.
  apply touches_only_bind; [apply touches_only_io|]. intros.
  apply touches_only_ret.
Qed.

Lemma touches_only_remove_event_detect c :
  touches_only [] (remove_event_detect env c).
Proof.
  unfold remove_event_detect.
  apply touches_only_bind; [apply touches_only_check_configured|]. intros _.
  apply touches_only_get. intros s.
  apply touches_only_bind; [apply touches_only_get_gpio_pin|]. intros pin.
  apply touches_only_bind; [apply touches_only_io|]. intros.
  apply touches_only_ret.
Qed.

Lemma touches_only_add_event_callback c cb b :
  touches_only [] (add_event_callback env c cb b).
Proof.
  unfold add_event_callback.
  apply touches_only_bind; [apply touches_only_check_configured|]. intros _.
  apply touches_only_get. intros s.
  apply touches_only_bind;
    [destruct b; cbn [is_some when];
     [apply touches_only_warn|apply touches_only_ret]|]. intros _.
  apply touches_only_bind; [apply touches_only_get_gpio_pin|]. intros pin.
  apply touches_only_bind; [apply touches_only_io|]. intros.
  apply touches_only_ret.
Qed.

Lemma touches_only_event_detected c : touches_only [] (event_detected env c).
Proof.
  unfold event_detected.
  apply touches_only_bind; [apply touches_only_check_configured|]. intros _.
  apply touches_only_get. intros s.
  apply touches_only_bind; [apply touches_only_get_gpio_pin|]. intros pin.
  apply touches_only_io.
Qed.
Lemma touches_only_cleanup_any a :
  has_none a = false -> touches_only (channels_named a) (cleanup_any env a).
Proof.
  induction a as [|c|l IH] using cleanup_arg_ind';
    cbn [has_none cleanup_any channels_named]; intros Hn.
  - discriminate Hn.
  - exact (touches_only_cleanup_channel (One c)).
  - apply touches_only_for_each. rewrite Forall_forall in *. intros a Ha.
    eapply touches_only_incl.
    + intros c Hc. apply in_flat_map. eauto.
    + apply IH; [exact Ha|].
      destruct (has_none a) eqn:E; [|reflexivity].
      rewrite <- Hn. symmetry. apply existsb_exists. eauto.
Qed.
End TouchesOnly.

(** X3.  [setup] of given channels changes the records of these channels
    only, and no other global; so does [cleanup] of a channel or of a list,
    nested or not, in which [None] does not occur.  A [None] in the list is
    the [cleanup()] without argument: a [cleanup] of a list that ends in
    [None] and returns has removed every record and reset the scheme and
    the warnings.  [input], [output] and the edge operations change no
    global at all. *)
Theorem gpio_frame env :
  (forall a dir initial pud,
      touches_only (channels_of a) (setup env a dir initial pud)) /\
  (forall a,
      has_none a = false ->
      touches_only (channels_named a) (cleanup_any env a)) /\
  (forall l w w',
      run (cleanup_any env (ArgMany (l ++ [ArgNone]))) w = (Ok tt, w') ->
      _exports (st w') = [] /\ _mode (st w') = None /\
      _gpio_warnings (st w') = true) /\
  (forall a state, touches_only [] (output env a state)) /\
  (forall c, touches_only [] (input env c)) /\
  (forall c t n, touches_only [] (wait_for_edge env c t n)) /\
  (forall c t cb b, touches_only [] (add_event_detect env c t cb b)) /\
  (forall c, touches_only [] (remove_event_detect env c)) /\
  (forall c cb b, touches_only [] (add_event_callback env c cb b)) /\
  (forall c, touches_only [] (event_detected env c)).
Proof.
  split; [intros a dir initial pud; apply touches_only_setup|].
  split; [intros a; apply touches_only_cleanup_any|].
  split.
  { intros l w w'. unfold run. cbn [cleanup_any]. rewrite for_each_app.
    destruct (for_each (cleanup_any env) l w) as [[[]|e] w1]; [|discriminate].
    rewrite for_each_cons. cbn [cleanup_any for_each].
    destruct (cleanup env None w1) as [[[]|e] w2] eqn:E; [|discriminate].
    unfold ret. intros [= <-]. exact (cleanup_none_ok _ _ E). }
  split; [intros a state; apply touches_only_output|].
  split; [intros c; apply touches_only_input|].
  split; [intros c t n; apply touches_only_wait_for_edge|].
  split; [intros c t cb b; apply touches_only_add_event_detect|].
  split; [intros c; apply touches_only_remove_event_detect|].
  split; [intros c cb b; apply touches_only_add_event_callback|].
  intros c; apply touches_only_event_detected.
Qed.

(** X3, witness: a nested list of two channels, and a list that ends in [None]. *)
Lemma gpio_frame_witness :
  touches_only [ChInt 7; ChInt 11]
    (cleanup_any healthy (ArgMany [ArgOne (ChInt 7); ArgMany [ArgOne (ChInt 11)]])) /\
  (_exports (Gpio true None [] []) = [] /\
   _mode (Gpio true None [] []) = None /\
   _gpio_warnings (Gpio true None [] []) = true).
Proof.
  destruct (gpio_frame healthy) as (_ & Hframe & Hnone & _).
  split.
  - exact (Hframe (ArgMany [ArgOne (ChInt 7); ArgMany [ArgOne (ChInt 11)]])
             eq_refl).
  - exact (Hnone [ArgOne (ChInt 7)]
             (World (Gpio false (Some BOARD) [(ChInt 7, IN); (ChInt 11, OUT)] []) [])
             (World (Gpio true None [] [])
                [Io (EvCleanup 54) (Returns RNone);
                 Io (SysUnexport 54) (Returns RNone);
                 Io (EvCleanup 138) (Returns RNone);
                 Io (SysUnexport 138) (Returns RNone)])
             eq_refl).
Defined.

(** ** Lists of channels *)

(** [setup] of a list, once the scheme is known to be selected. *)
Lemma setup_Many_run env l dir initial pud w :
  run (setup env (Many l) dir initial pud) w =
  match _mode (st w) with
  | None => (Raise (RuntimeError ModeNotSet), w)
  | Some _ =>
      for_each (fun ch => setup env ch dir initial None) l
        (if is_some pud && _gpio_warnings (st w)
         then World (st w) (log w ++ [Warn PullUpDownUnsupported])
         else w)
  end.
Proof.
  cbn [setup]. unfold run, bind at 1. unfold get at 1. cbn beta iota.
  destruct (_mode (st w)); [|reflexivity].
  destruct pud, (_gpio_warnings (st w)); reflexivity.
Qed.

(** X4.  [setup] of a list configures its channels in order and stops at the
    first one that raises: the channels before it stay configured (nothing
    is rolled back) and those after it are not attempted. *)
Theorem setup_list_stops_at_first_failure env l1 a l2 dir initial pud w w1 e w2 :
  run (setup env (Many l1) dir initial pud) w = (Ok tt, w1) ->
  run (setup env a dir initial None) w1 = (Raise e, w2) ->
  run (setup env (Many (l1 ++ a :: l2)) dir initial pud) w = (Raise e, w2).
Proof.
  rewrite !setup_Many_run. destruct (_mode (st w)); [|discriminate].
  intros H1 H2. rewrite for_each_app, H1, for_each_cons.
  unfold run in H2. now rewrite H2.
Qed.

(** X4, witness: channels 11, 12 and 13, where the export of 12 fails. *)
Lemma setup_list_stops_at_first_failure_witness :
  run (setup (scripted [Returns RNone; Returns RNone; Raises (OSError 13)])
         (Many [One (ChInt 11); One (ChInt 12); One (ChInt 13)]) OUT None None)
      (World (Gpio true (Some BOARD) [] []) [])
  = (Raise (OSError 13),
     World (Gpio true (Some BOARD) [(ChInt 11, OUT)] [])
       [Io (SysExport 138) (Returns RNone);
        Io (SysDirection 138 OUT) (Returns RNone);
        Io (SysExport 29) (Raises (OSError 13))]).
Proof.
  apply (@setup_list_stops_at_first_failure
           (scripted [Returns RNone; Returns RNone; Raises (OSError 13)])
           [One (ChInt 11)] (One (ChInt 12)) [One (ChInt 13)] OUT None None
           (World (Gpio true (Some BOARD) [] []) [])
           (World (Gpio true (Some BOARD) [(ChInt 11, OUT)] [])
              [Io (SysExport 138) (Returns RNone);
               Io (SysDirection 138 OUT) (Returns RNone)])).
  - reflexivity.
  - reflexivity.
Defined.

(** ** cleanup() *)

Lemma cleanup_one_raise_inv env c w e w' :
  run (cleanup_channel env (One c)) w = (Raise e, w') -> st w' = st w.
Proof.
  cbn [cleanup_channel]. unfold_m. intros H. exec; try discriminate; reflexivity.
Qed.

Lemma cleanup_each_raise env ks : forall w e w',
  run (for_each (cleanup_channel env) (map One ks)) w = (Raise e, w') ->
  exists done c rest,
    ks = done ++ c :: rest /\
    st w' = Gpio (_gpio_warnings (st w)) (_mode (st w))
              (fold_left (dict_del channel_eqb (V:=direction)) done (_exports (st w)))
              (_pin_map_CUSTOM (st w)).
Proof.
  induction ks as [|k ks IH]; intros w e w' H.
  - discriminate H.
  - cbn [map] in H. unfold run in H. rewrite for_each_cons in H.
    destruct (cleanup_channel env (One k) w) as [[[]|e1] w1] eqn:E1.
    + apply cleanup_one_ok_inv in E1. destruct E1 as (Hst1 & _).
      apply IH in H. destruct H as (done & c & rest & -> & Hst).
      exists (k :: done), c, rest. split; [reflexivity|].
      rewrite Hst, Hst1. reflexivity.
    + injection H as <- <-. apply cleanup_one_raise_inv in E1.
      exists [], k, ks. split; [reflexivity|]. rewrite E1. now destruct (st w).
Qed.

(** X5.  When [cleanup()] raises, the channels torn down before the failing
    one have lost their records, the failing one and those after it keep
    theirs, and neither the warnings toggle nor the scheme is reset. *)
Theorem cleanup_all_failure env w e w' :
  run (cleanup env None) w = (Raise e, w') ->
  _mode (st w') = _mode (st w) /\
  _gpio_warnings (st w') = _gpio_warnings (st w) /\
  exists done c rest,
    dict_keys (_exports (st w)) = done ++ c :: rest /\
    _exports (st w') = fold_left (dict_del channel_eqb (V:=direction)) done
                         (_exports (st w)).
Proof.
  unfold cleanup. unfold run, bind at 1. unfold get at 1. cbn beta iota.
  unfold bind at 1. rewrite cleanup_channel_Many.
  destruct (for_each _ _ w) as [[[]|e1] w1] eqn:E.
  - unfold_m. discriminate.
  - intros [= <- <-]. apply cleanup_each_raise in E.
    destruct E as (done & c & rest & Hk & Hst). rewrite Hst. cbn.
    repeat split. exists done, c, rest. split; [exact Hk|reflexivity].
Qed.

(** X5, witness: two channels, the teardown of the second fails. *)
Lemma cleanup_all_failure_witness :
  Some BOARD = Some BOARD /\
  false = false /\
  exists done c rest,
    [ChInt 7; ChInt 11] = done ++ c :: rest /\
    [(ChInt 11, OUT)] = fold_left (dict_del channel_eqb (V:=direction)) done
                          [(ChInt 7, IN); (ChInt 11, OUT)].
Proof.
  assert (Hrun : run (cleanup (scripted [Returns RNone; Returns RNone;
                                         Raises (OSError 5)]) None)
                   (World (Gpio false (Some BOARD)
                             [(ChInt 7, IN); (ChInt 11, OUT)] []) []) =
                 (Raise (OSError 5),
                  World (Gpio false (Some BOARD) [(ChInt 11, OUT)] [])
                    [Io (EvCleanup 54) (Returns RNone);
                     Io (SysUnexport 54) (Returns RNone);
                     Io (EvCleanup 138) (Raises (OSError 5))]))
    by (vm_compute; reflexivity).
  exact (cleanup_all_failure _ _ Hrun).
Defined.

(** X6.  [cleanup()] is idempotent: after a [cleanup()] that returned, another
    one returns at once, calling nothing and changing nothing. *)
Theorem cleanup_all_idempotent env w w1 :
  run (cleanup env None) w = (Ok tt, w1) ->
  run (cleanup env None) w1 = (Ok tt, w1).
Proof.
  unfold cleanup. unfold run, bind at 1. unfold get at 1. cbn beta iota.
  unfold bind at 1. rewrite cleanup_channel_Many.
  destruct (for_each _ _ w) as [[[]|e] w0] eqn:E; [|discriminate].
  apply cleanup_each_ok in E. destruct E as (Hst & _).
  unfold_m. intros H. inversion H; subst; clear H.
  cbn [st _exports dict_keys map]. rewrite Hst. cbn [_exports].
  rewrite dict_del_all by auto. reflexivity.
Qed.

(** X6, witness: one channel configured. *)
Lemma cleanup_all_idempotent_witness :
  run (cleanup healthy None)
      (World (Gpio true None [] [])
         [Io (EvCleanup 54) (Returns RNone); Io (SysUnexport 54) (Returns RNone)])
  = (Ok tt,
     World (Gpio true None [] [])
       [Io (EvCleanup 54) (Returns RNone); Io (SysUnexport 54) (Returns RNone)]).
Proof.
  apply (@cleanup_all_idempotent healthy
           (World (Gpio false (Some BOARD) [(ChInt 7, IN)] []) [])).
  reflexivity.
Defined.

(** ** The registry in reachable states *)

Lemma dict_get_not_in (V : Type) (d : dict channel V) k :
  dict_get channel_eqb d k = None -> ~ In k (dict_keys d).
Proof. intros H Hin. now apply dict_get_keys in Hin. Qed.

Lemma dict_keys_del_filter (V : Type) (d : dict channel V) k :
  dict_keys (dict_del channel_eqb d k)
  = filter (fun k0 => negb (channel_eqb k0 k)) (dict_keys d).
Proof.
  unfold dict_keys. induction d as [|[k0 v0] d IH]; cbn; [reflexivity|].
  destruct (channel_eqb k0 k); cbn; [exact IH|]. now rewrite IH.
Qed.

Lemma registry_ok_same s s' :
  _exports s' = _exports s -> (_mode s' = None -> _mode s = None) ->
  registry_ok s -> registry_ok s'.
Proof. unfold registry_ok. intros -> Hm (? & ? & ?). auto. Qed.

Lemma registry_ok_set s c d p :
  dict_get channel_eqb (_exports s) c = None ->
  dict_get channel_eqb BOARD_pins c = Some p ->
  _mode s <> None ->
  registry_ok s ->
  registry_ok (Gpio (_gpio_warnings s) (_mode s)
                 (dict_set channel_eqb (_exports s) c d) (_pin_map_CUSTOM s)).
Proof.
  intros Hnone Hp Hmode (Hnd & Hb & _). unfold registry_ok. cbn [_exports _mode].
  rewrite (@dict_set_absent _ _ _ d Hnone). unfold dict_keys in *. rewrite map_app. cbn [map fst].
  split; [|split].
  - apply NoDup_app; [exact Hnd|constructor; [intros []|constructor]|].
    intros k Hk [<-|[]]. now apply dict_get_not_in in Hnone.
  - intros k Hk. apply in_app_or in Hk. destruct Hk as [Hk|[<-|[]]]; eauto.
  - intros Hm. now destruct Hmode.
Qed.

Lemma registry_ok_del s c :
  registry_ok s ->
  registry_ok (Gpio (_gpio_warnings s) (_mode s)
                 (dict_del channel_eqb (_exports s) c) (_pin_map_CUSTOM s)).
Proof.
  intros (Hnd & Hb & Hm). unfold registry_ok. cbn [_exports _mode].
  rewrite dict_keys_del_filter. split; [|split].
  - now apply NoDup_filter.
  - intros k Hk. apply filter_In in Hk. apply Hb, Hk.
  - intros E. now rewrite (Hm E).
Qed.

Ltac run_through :=
  unfold_m;
  repeat match goal with
         | |- context [match ?x with _ => _ end] => innermost x; destruct x eqn:?
         end;
  cbn [st snd _exports _mode]; first [reflexivity | split; [reflexivity|congruence]].

Section KeepsRegistry.
Variable env : environment.

Lemma keeps_of_touches_nothing A (m : M gpio A) :
  (forall w, _exports (st (snd (m w))) = _exports (st w) /\
             (_mode (st (snd (m w))) = None -> _mode (st w) = None)) ->
  keeps_registry_ok m.
Proof. intros H w Hw. eapply registry_ok_same; [apply H|apply H|exact Hw]. Qed.

Lemma keeps_for_each X (f : X -> M gpio unit) l :
  Forall (fun x => keeps_registry_ok (f x)) l -> keeps_registry_ok (for_each f l).
Proof.
  induction 1 as [|x l Hx Hl IH]; intros w Hw; [exact Hw|].
  rewrite for_each_cons. specialize (Hx w Hw).
  destruct (f x w) as [[[]|e] w1]; cbn [snd] in *; [apply IH, Hx|exact Hx].
Qed.

Lemma keeps_setup_one c dir initial pud :
  keeps_registry_ok (setup env (One c) dir initial pud).
Proof.
  intros w Hw. destruct (setup env (One c) dir initial pud w) as [r w'] eqn:E.
  cbn [snd]. cbn [setup] in E. unfold_m. exec; try exact Hw.
  all: only_board.
  all: destruct (st w) as [gw gm ge gc] eqn:Es;
    cbn [_exports _mode _gpio_warnings _pin_map_CUSTOM] in *.
  all: match goal with
       | Hn : dict_get channel_eqb ?e ?k = None,
         Hp : dict_get channel_eqb BOARD_pins ?k = Some ?p |- _ =>
           apply (@registry_ok_set (Gpio gw gm e gc) k _ p Hn Hp); [|exact Hw]
       end.
  all: cbn [_mode]; congruence.
Qed.

Lemma keeps_setup a : forall dir initial pud,
  keeps_registry_ok (setup env a dir initial pud).
Proof.
  induction a as [c|l IH] using chan_arg_ind'; intros dir initial pud.
  - apply keeps_setup_one.
  - intros w Hw. pose proof (setup_Many_run env l dir initial pud w) as E.
    unfold run in E. rewrite E. destruct (_mode (st w)); [|exact Hw].
    apply keeps_for_each.
    + revert IH. apply Forall_impl. intros a Ha. apply Ha.
    + destruct (is_some pud && _gpio_warnings (st w)); exact Hw.
Qed.

Lemma keeps_cleanup_channel a : keeps_registry_ok (cleanup_channel env a).
Proof.
  induction a as [c|l IH] using chan_arg_ind'.
  - intros w Hw. destruct (cleanup_channel env (One c) w) as [[[]|e] w'] eqn:E;
      cbn [snd].
    + apply cleanup_one_ok_inv in E. destruct E as [-> _].
      now apply registry_ok_del.
    + apply cleanup_one_raise_inv in E. now rewrite E.
  - rewrite cleanup_channel_Many. apply keeps_for_each. exact IH.
Qed.

Lemma keeps_cleanup a : keeps_registry_ok (cleanup env a).
Proof.
  destruct a as [a|]; [apply keeps_cleanup_channel|].
  intros w Hw. unfold cleanup, bind at 1. unfold get at 1. cbn beta iota.
  unfold bind at 1.
  pose proof (@keeps_cleanup_channel (Many (map One (dict_keys (_exports (st w))))) w Hw)
    as H.
  destruct (cleanup_channel env _ w) as [[[]|e] w1] eqn:E; cbn [snd] in *;
    [|exact H].
  rewrite cleanup_channel_Many in E. apply cleanup_each_ok in E.
  destruct E as [E _].
  assert (He : _exports (st w1) = []).
  { rewrite E. cbn [_exports]. apply dict_del_all. auto. }
  unfold_m. cbn [snd st _exports _mode]. unfold registry_ok. cbn [_exports _mode].
  rewrite He. split; [constructor|split; [intros k []|reflexivity]].
Qed.

Lemma output_keeps_exports a state : forall w,
  st (snd (output env a state w)) = st w.
Proof.
  induction a as [c|l IH] using chan_arg_ind'; intros w.
  - cbn [output]. run_through.
  - cbn [output]. unfold bind at 1.
    assert (G : forall w, st (snd (for_each
                 (fun ch => output env ch state;; ret tt) l w)) = st w).
    { clear w. induction IH as [|a l Ha Hl IHl]; intros w0; [reflexivity|].
      rewrite for_each_cons. unfold bind at 1. specialize (Ha w0).
      destruct (output env a state w0) as [[v|e] w1]; cbn [snd] in *.
      - unfold ret. rewrite IHl. exact Ha.
      - exact Ha. }
    specialize (G w).
    destruct (for_each _ l w) as [[[]|e] w1]; cbn [snd] in *; exact G.
Qed.

Lemma keeps_api_run k : keeps_registry_ok (api_run env k).
Proof.
  destruct k as [a|b|a d i p|c|a v|c t n|c t cb b|c|c cb b|c|a]; cbn [api_run];
    [| |apply keeps_setup| | | | | | | |apply keeps_cleanup];
    apply keeps_of_touches_nothing; intros w.
  - unfold setmode, set_custom_pin_mappings. unfold_m.
    destruct a as [m|d]; [destruct m|]; cbn; (split; [reflexivity|congruence]).
  - run_through.
  - unfold discard, input. run_through.
  - unfold discard. pose proof (output_keeps_exports a v w) as H.
    destruct (output env a v w) as [[]]; cbn [snd] in *; now rewrite H.
  - unfold discard, wait_for_edge. run_through.
  - unfold add_event_detect. run_through.
  - unfold remove_event_detect. run_through.
  - unfold add_event_callback. run_through.
  - unfold discard, event_detected. run_through.
Qed.
End KeepsRegistry.

Lemma api_program_registry_ok env ks :
  registry_ok (st (api_program env ks world_init)).
Proof.
  assert (H : forall w, registry_ok (st w) -> registry_ok (st (api_program env ks w))).
  { induction ks as [|k ks IH]; intros w Hw; [exact Hw|].
    cbn [api_program]. apply IH, keeps_api_run, Hw. }
  apply H. split; [constructor|split; [intros k []|reflexivity]].
Qed.

(** X7.  In every state that calls of the interface reach from the freshly
    loaded module, whatever the environment answers and whatever raised on
    the way, no channel is recorded twice, every recorded channel is a
    channel of the board table, and no channel is recorded while no
    numbering scheme is selected. *)
Theorem registry_invariant env ks :
  NoDup (dict_keys (_exports (st (api_program env ks world_init)))) /\
  (forall k,
     In k (dict_keys (_exports (st (api_program env ks world_init)))) ->
     exists p, dict_get channel_eqb BOARD_pins k = Some p) /\
  (_mode (st (api_program env ks world_init)) = None ->
   _exports (st (api_program env ks world_init)) = []).
Proof. exact (api_program_registry_ok env ks). Qed.

(** ** Translation *)

Lemma dict_get_In (V : Type) (d : dict channel V) k v :
  dict_get channel_eqb d k = Some v -> In (k, v) d.
Proof.
  induction d as [|[k0 v0] d IH]; cbn; [discriminate|].
  destruct (channel_eqb k0 k) eqn:E.
  - apply channel_eqb_eq in E. intros [= ->]. left. now subst.
  - intros H. right. apply IH, H.
Qed.

Lemma BOARD_pins_injective c1 c2 p :
  dict_get channel_eqb BOARD_pins c1 = Some p ->
  dict_get channel_eqb BOARD_pins c2 = Some p ->
  c1 = c2.
Proof.
  intros H1 H2. apply dict_get_In in H1. apply dict_get_In in H2.
  unfold BOARD_pins in *. cbn [In] in H1, H2.
  repeat match goal with
         | H : _ \/ _ |- _ => destruct H as [H|H]
         | H : False |- _ => destruct H
         end;
    inversion H1; subst; inversion H2; reflexivity.
Qed.

Lemma get_gpio_pin_Ok m c p w :
  fst (run (get_gpio_pin m c) w) = Ok p ->
  m = Some BOARD /\ dict_get channel_eqb BOARD_pins c = Some p.
Proof.
  unfold_m. destruct m as [[]|]; cbn [mode_in existsb mode_eqb orb _pin_map fst];
    try discriminate.
  destruct (dict_get channel_eqb BOARD_pins c); cbn [fst]; [|discriminate].
  intros [= ->]. auto.
Qed.

(** X8.  Translation never sends two channels to one kernel pin: when
    [get_gpio_pin] returns the same pin for two channels, in whatever states
    and under whatever schemes, the channels are the same (and the scheme is
    [BOARD]). *)
Theorem translation_injective m1 m2 c1 c2 p w1 w2 :
  fst (run (get_gpio_pin m1 c1) w1) = Ok p ->
  fst (run (get_gpio_pin m2 c2) w2) = Ok p ->
  c1 = c2 /\ m1 = Some BOARD /\ m2 = Some BOARD.
Proof.
  intros H1 H2. apply get_gpio_pin_Ok in H1. apply get_gpio_pin_Ok in H2.
  destruct H1 as [-> H1], H2 as [-> H2]. split; [|auto].
  exact (BOARD_pins_injective _ _ H1 H2).
Qed.

(** X8, witness: channel 7 on the board. *)
Lemma translation_injective_witness :
  ChInt 7 = ChInt 7 /\ Some BOARD = Some BOARD /\ Some BOARD = Some BOARD.
Proof.
  apply (@translation_injective (Some BOARD) (Some BOARD) (ChInt 7) (ChInt 7) 54%Z
           world_init world_init); reflexivity.
Defined.

(** ** A scheme selected after channels were configured *)

Lemma get_gpio_pin_not_board m c w :
  m <> BOARD -> get_gpio_pin (Some m) c w = (Raise AssertionError, w).
Proof. intros H. destruct m; try reflexivity. now destruct H. Qed.

(** X9.  [setmode] may be called while channels are configured, and a scheme
    other than [BOARD] then strands them: reading, writing and cleaning up a
    configured channel, and the cleanup of everything, all fail on the
    assertion of the translation, with nothing called and nothing changed. *)
Theorem scheme_switch_strands_channels env c d m w :
  dict_get channel_eqb (_exports (st w)) c = Some d ->
  _mode (st w) = Some m ->
  m <> BOARD ->
  run (input env c) w = (Raise AssertionError, w) /\
  (d = OUT ->
   forall v, run (output env (One c) v) w = (Raise AssertionError, w)) /\
  run (cleanup env (Some (One c))) w = (Raise AssertionError, w) /\
  run (cleanup env None) w = (Raise AssertionError, w).
Proof.
  intros Hc Hm Hne.
  assert (Hone : forall k v, dict_get channel_eqb (_exports (st w)) k = Some v ->
                 cleanup_channel env (One k) w = (Raise AssertionError, w)).
  { intros k v Hk. cbn [cleanup_channel]. unfold_m. rewrite Hk, Hm.
    destruct m; try reflexivity. now destruct Hne. }
  split; [|split; [|split]].
  - unfold input. unfold_m. rewrite Hc, Hm.
    destruct m; try reflexivity. now destruct Hne.
  - intros -> v. cbn [output]. unfold_m. rewrite Hc. cbn. rewrite Hm.
    destruct m; try reflexivity. now destruct Hne.
  - unfold cleanup, run. exact (Hone c d Hc).
  - unfold cleanup, run, bind at 1. unfold get at 1. cbn beta iota.
    unfold bind at 1. rewrite cleanup_channel_Many.
    destruct (_exports (st w)) as [|[k0 v0] rest] eqn:He; [discriminate Hc|].
    cbn [dict_keys map fst]. rewrite for_each_cons.
    rewrite (Hone k0 v0); [reflexivity|].
    cbn [dict_get]. now rewrite channel_eqb_refl.
Qed.

(** X9, witness: channel 7 configured under [BOARD], then [setmode(BCM)]. *)
Lemma scheme_switch_strands_channels_witness :
  let w := snd (run (setmode (Scheme BOARD) ;;
                     setup healthy (One (ChInt 7)) OUT None None ;;
                     setmode (Scheme BCM)) world_init) in
  run (input healthy (ChInt 7)) w = (Raise AssertionError, w) /\
  (OUT = OUT ->
   forall v, run (output healthy (One (ChInt 7)) v) w = (Raise AssertionError, w)) /\
  run (cleanup healthy (Some (One (ChInt 7)))) w = (Raise AssertionError, w) /\
  run (cleanup healthy None) w = (Raise AssertionError, w).
Proof.
  cbv zeta.
  apply (@scheme_switch_strands_channels healthy (ChInt 7) OUT BCM);
    [reflexivity|reflexivity|discriminate].
Defined.

(** ** Recorded channels reach their pin *)

(** X10.  In a state reached by calls of the interface, with [BOARD] selected,
    a recorded channel always translates: [input] makes exactly one call,
    the read of the channel's kernel pin, and so does [output] with the
    write on a channel recorded as an output; neither can fail on the
    translation. *)
Theorem recorded_channel_reaches_pin env ks c d :
  dict_get channel_eqb (_exports (st (api_program env ks world_init))) c = Some d ->
  _mode (st (api_program env ks world_init)) = Some BOARD ->
  exists p,
    dict_get channel_eqb BOARD_pins c = Some p /\
    calls_of (log (snd (run (input env c) (api_program env ks world_init))))
    = calls_of (log (api_program env ks world_init)) ++ [SysInput p] /\
    (d = OUT ->
     forall v,
       calls_of (log (snd (run (output env (One c) v)
                             (api_program env ks world_init))))
       = calls_of (log (api_program env ks world_init)) ++ [SysOutput p v]).
Proof.
  pose proof (api_program_registry_ok env ks) as (_ & Hb & _).
  generalize dependent (api_program env ks world_init). intros w Hb Hc Hm.
  destruct (Hb c) as [p Hp].
  { apply dict_get_In in Hc. unfold dict_keys.
    change c with (fst (c, d)). now apply in_map. }
  exists p. split; [exact Hp|]. split.
  - unfold input. unfold_m. rewrite Hc, Hm.
    cbn [mode_in existsb mode_eqb orb _pin_map]. rewrite Hp.
    destruct (env _ _); cbn [snd log]; rewrite calls_of_app; reflexivity.
  - intros -> v. cbn [output]. unfold_m. rewrite Hc.
    cbn [direction_eqb negb]. rewrite Hm.
    cbn [mode_in existsb mode_eqb orb _pin_map]. rewrite Hp.
    destruct (env _ _); cbn [snd log]; rewrite calls_of_app; reflexivity.
Qed.

(** X10, witness: [setmode(BOARD)] and [setup(7, OUT)]. *)
Lemma recorded_channel_reaches_pin_witness :
  exists p,
    dict_get channel_eqb BOARD_pins (ChInt 7) = Some p /\
    calls_of (log (snd (run (input healthy (ChInt 7))
       (api_program healthy
          [Call_setmode (Scheme BOARD);
           Call_setup (One (ChInt 7)) OUT None None] world_init))))
    = calls_of (log (api_program healthy
          [Call_setmode (Scheme BOARD);
           Call_setup (One (ChInt 7)) OUT None None] world_init))
      ++ [SysInput p] /\
    (OUT = OUT ->
     forall v,
       calls_of (log (snd (run (output healthy (One (ChInt 7)) v)
          (api_program healthy
             [Call_setmode (Scheme BOARD);
              Call_setup (One (ChInt 7)) OUT None None] world_init))))
       = calls_of (log (api_program healthy
             [Call_setmode (Scheme BOARD);
              Call_setup (One (ChInt 7)) OUT None None] world_init))
         ++ [SysOutput p v]).
Proof.
  apply (@recorded_channel_reaches_pin healthy
           [Call_setmode (Scheme BOARD);
            Call_setup (One (ChInt 7)) OUT None None] (ChInt 7) OUT);
    reflexivity.
Defined.

(** ** Numbers that binary64 holds exactly *)

Module Float64Exact.
Import Float64 Float64Facts.
Open Scope Q_scope.

Lemma round_half_even_comp x y : x == y -> round_half_even x = round_half_even y.
Proof.
  intros E. unfold round_half_even.
  assert (F : Qfloor x = Qfloor y) by (now rewrite E).
  rewrite F.
  assert (C : Qcompare (x - inject_Z (Qfloor y)) (1 # 2)
              = Qcompare (y - inject_Z (Qfloor y)) (1 # 2)) by (now rewrite E).
  now rewrite C.
Qed.

Lemma pow2_neq0 k : ~ pow2 k == 0.
Proof. pose proof (pow2_pos k). lra. Qed.

(** A positive [m * 2^e] with [m < 2^53] and [e] not below the subnormal
    exponent is on the grid. *)
Lemma round_pos_exact q m e :
  0 < q -> q == inject_Z m * pow2 e -> (m < 2 ^ 53)%Z -> (-1074 <= e)%Z ->
  round_pos q == q.
Proof.
  intros Hq E Hm He.
  assert (Hf : (fexp q <= e)%Z).
  { unfold fexp. destruct (ilog2_spec Hq) as [Hlo _].
    assert (H : pow2 (ilog2 q) < pow2 (53 + e)).
    { eapply Qle_lt_trans; [exact Hlo|]. rewrite E, pow2_add.
      apply Qmult_lt_compat_r; [apply pow2_pos|].
      rewrite pow2_Z by lia. rewrite <- Zlt_Qlt. exact Hm. }
    apply pow2_lt_inv in H. lia. }
  rewrite round_pos_eq.
  generalize dependent (fexp q). intros f Hf.
  assert (Hk : q / pow2 f == inject_Z (m * 2 ^ (e - f))).
  { rewrite E, inject_Z_mult, <- pow2_Z by lia. rewrite pow2_sub.
    field. try split; apply pow2_neq0. }
  rewrite (round_half_even_comp Hk), round_half_even_Z.
  rewrite inject_Z_mult, <- pow2_Z by lia. rewrite pow2_sub, E.
  field. try split; apply pow2_neq0.
Qed.

Lemma b64_round_exact q m e :
  0 <= q -> q == inject_Z m * pow2 e -> (m <= 2 ^ 53)%Z -> (-1074 <= e)%Z ->
  b64_round q == q.
Proof.
  intros Hq E Hm He.
  destruct (b64_round_sign q) as (Pq & _ & Zq).
  destruct (Qle_lt_or_eq _ _ Hq) as [Hpos|Hz].
  - rewrite (Pq Hpos).
    destruct (Z.eq_dec m (2 ^ 53)) as [->|Hne].
    + apply (@round_pos_exact q (2 ^ 52) (e + 1)); try lia; [exact Hpos|].
      rewrite E, pow2_add.
      change (pow2 1) with (2 # 1). change (inject_Z (2 ^ 53)) with (inject_Z (2 ^ 52) * (2 # 1)).
      ring.
    + apply (@round_pos_exact q m e); try lia; assumption.
  - rewrite Zq by (symmetry; exact Hz). exact Hz.
Qed.

(** What rounding a positive number yields: at most 53 bits at the exponent
    of its last place. *)
Lemma round_pos_shape z :
  0 < z ->
  exists k, round_pos z == inject_Z k * pow2 (fexp z) /\
            (0 <= k <= 2 ^ 53)%Z /\ (-1074 <= fexp z)%Z.
Proof.
  intros Hz. exists (round_half_even (z / pow2 (fexp z))).
  split; [apply round_pos_eq|]. split; [|unfold fexp; lia].
  destruct (ilog2_spec Hz) as [_ Hhi].
  assert (Hf : (ilog2 z - 52 <= fexp z)%Z) by (unfold fexp; lia).
  generalize dependent (fexp z). intros f Hf.
  split.
  - rewrite <- (round_half_even_Z 0). apply round_half_even_mono.
    apply Qlt_le_weak, Qlt_shift_div_l; [apply pow2_pos|].
    rewrite Qmult_0_l. exact Hz.
  - rewrite <- (round_half_even_Z (2 ^ 53)). apply round_half_even_mono.
    apply Qle_shift_div_r; [apply pow2_pos|].
    rewrite <- pow2_Z by lia. rewrite <- pow2_add.
    apply Qlt_le_weak. eapply Qlt_le_trans; [exact Hhi|]. apply pow2_le. lia.
Qed.

(** [int(round(y))] of a float [y >= 0] is a float again. *)
Lemma round_of_float_exact z :
  0 <= z ->
  (0 <= round_half_even (b64_round z))%Z /\
  b64_round (inject_Z (round_half_even (b64_round z)))
    == inject_Z (round_half_even (b64_round z)).
Proof.
  intros Hz.
  destruct (b64_round_sign z) as (Pz & _ & Zz).
  destruct (Qle_lt_or_eq _ _ Hz) as [Hpos|H0].
  - rewrite (Pz Hpos).
    destruct (round_pos_shape Hpos) as (k & Hy & Hk & Hf).
    generalize dependent (fexp z). intros f Hy Hf.
    destruct (Z_le_gt_dec 0 f) as [Hf0|Hf0].
    + assert (Hy' : round_pos z == inject_Z (k * 2 ^ f)).
      { rewrite Hy, inject_Z_mult, <- pow2_Z by lia. reflexivity. }
      rewrite (round_half_even_comp Hy'), round_half_even_Z.
      split; [nia|].
      apply (@b64_round_exact _ k f); try lia.
      * change 0 with (inject_Z 0). rewrite <- Zle_Qle. nia.
      * rewrite inject_Z_mult, <- pow2_Z by lia. reflexivity.
    + assert (Hle : round_pos z <= inject_Z (2 ^ 53)).
      { rewrite Hy. apply Qle_trans with (inject_Z k * 1).
        - rewrite !(Qmult_comm (inject_Z k)). apply Qmult_le_compat_r.
          + change 1 with (pow2 0). apply pow2_le. lia.
          + change 0 with (inject_Z 0). rewrite <- Zle_Qle. lia.
        - rewrite Qmult_1_r. rewrite <- Zle_Qle. lia. }
      assert (Hge : 0 <= round_pos z) by (apply round_pos_nonneg, Hpos).
      apply round_half_even_mono in Hle. rewrite round_half_even_Z in Hle.
      apply round_half_even_mono in Hge.
      change (round_half_even 0) with (round_half_even (inject_Z 0)) in Hge.
      rewrite round_half_even_Z in Hge.
      split; [exact Hge|].
      apply (@b64_round_exact _ (round_half_even (round_pos z)) 0); try lia.
      * change 0 with (inject_Z 0). rewrite <- Zle_Qle. exact Hge.
      * change (pow2 0) with 1. ring.
  - rewrite Zz by (symmetry; exact H0). split; [discriminate|reflexivity].
Qed.

End Float64Exact.

Open Scope Q_scope.

(** ** Periods and duty cycles in nanoseconds *)

Lemma period_ns_exact f P :
  0 < f -> period_ns f = Ok P ->
  (0 <= P)%Z /\ Float64.b64_round (inject_Z P) == inject_Z P.
Proof.
  intros Hf. unfold period_ns, true_div, float_mul.
  destruct (Qeq_bool f 0); [discriminate|].
  destruct (Float64.b64 (1 / f)) as [x|] eqn:E1; [|discriminate].
  destruct (Float64.b64 (x * _)) as [y|] eqn:E2; [|discriminate].
  intros [= <-]. apply Float64Facts.b64_Some in E1, E2. subst y.
  apply Float64Exact.round_of_float_exact.
  apply Qmult_le_0_compat; [|discriminate].
  subst x. change 0 with (Float64.b64_round 0).
  apply Float64Facts.b64_round_mono.
  apply Qlt_le_weak, Qlt_shift_div_l; [exact Hf|]. lra.
Qed.

Lemma duty_ns_within percent P D :
  0 <= percent -> percent <= 100 ->
  (0 <= P)%Z -> Float64.b64_round (inject_Z P) == inject_Z P ->
  duty_ns percent P = Ok D -> (0 <= D <= P)%Z.
Proof.
  intros H0 H100 HP Hex. unfold duty_ns, true_div, float_mul.
  destruct (Qeq_bool 100 0); [discriminate|].
  destruct (Float64.b64 (percent / 100)) as [x|] eqn:E1; [|discriminate].
  destruct (Float64.b64 (x * _)) as [y|] eqn:E2; [|discriminate].
  intros [= <-]. apply Float64Facts.b64_Some in E1, E2.
  assert (Hx0 : 0 <= x).
  { subst x. change 0 with (Float64.b64_round 0).
    apply Float64Facts.b64_round_mono.
    apply Qle_shift_div_l; [reflexivity|]. lra. }
  assert (Hx1 : x <= 1).
  { subst x. change 1 with (Float64.b64_round 1).
    apply Float64Facts.b64_round_mono.
    apply Qle_shift_div_r; [reflexivity|]. lra. }
  assert (HPq : 0 <= inject_Z P).
  { change 0 with (inject_Z 0). now rewrite <- Zle_Qle. }
  split.
  - rewrite <- (Float64Facts.round_half_even_Z 0).
    apply Float64Facts.round_half_even_mono. subst y.
    change (inject_Z 0) with (Float64.b64_round 0).
    apply Float64Facts.b64_round_mono. now apply Qmult_le_0_compat.
  - apply Z.le_trans with (Float64.round_half_even (inject_Z P));
      [|rewrite Float64Facts.round_half_even_Z; lia].
    apply Float64Facts.round_half_even_mono. subst y.
    apply Qle_trans with (Float64.b64_round (inject_Z P));
      [|apply Qle_lteq; right; exact Hex].
    apply Float64Facts.b64_round_mono.
    rewrite <- (Qmult_1_l (inject_Z P)) at 2.
    now apply Qmult_le_compat_r.
Qed.

(** X11.  [change_frequency] keeps the duty cycle within the period at every
    step.  For an object whose duty cycle is a percentage (0 to 100), whose
    period register holds the period of its current frequency, and whose
    duty register does not exceed it: during a change to a positive
    frequency, after each call made (whether the call returned or raised,
    and whether or not the method went on), the duty register is at most
    the period register. *)
Theorem change_frequency_keeps_duty_within_period env f w r w' P0 D0 :
  0 <= duty_cycle_percent (st w) ->
  duty_cycle_percent (st w) <= 100 ->
  0 < f ->
  period_ns (frequency (st w)) = Ok P0 ->
  (D0 <= P0)%Z ->
  run (change_frequency env f) w = (r, w') ->
  exists evs,
    log w' = log w ++ evs /\
    forall n,
      (snd (pwm_registers (chip (st w)) (pin (st w)) (firstn n evs) (P0, D0))
       <= fst (pwm_registers (chip (st w)) (pin (st w)) (firstn n evs) (P0, D0)))%Z.
Proof.
  intros H0 H100 Hf Hold HD0. unfold change_frequency. unfold_m.
  destruct (period_ns f) as [P1|] eqn:Ep.
  2:{ intros [= <- <-]. exists []. rewrite app_nil_r. split; [reflexivity|].
      intros n. rewrite firstn_nil. exact HD0. }
  destruct (duty_ns (duty_cycle_percent (st w)) P1) as [D1|] eqn:Ed.
  2:{ intros [= <- <-]. exists []. rewrite app_nil_r. split; [reflexivity|].
      intros n. rewrite firstn_nil. exact HD0. }
  rewrite Hold.
  destruct (period_ns_exact Hf Ep) as [HP1 Hex].
  pose proof (duty_ns_within H0 H100 HP1 Hex Ed) as HD1.
  assert (Hsame : ((chip (st w) =? chip (st w)) && (pin (st w) =? pin (st w)))%Z%bool = true)
    by (now rewrite !Z.eqb_refl).
  destruct (P1 >? P0)%Z eqn:Ecmp; intros H; exec;
    rewrite <- ?app_assoc; cbn [app];
    (eexists; split; [reflexivity|]);
    intros [|[|[|n]]]; cbn [firstn pwm_registers]; rewrite ?Hsame;
      cbn [fst snd]; lia.
Qed.

(** X11, witness: from 1000 Hz to 2000 Hz at 50%. *)
Lemma change_frequency_keeps_duty_within_period_witness :
  exists evs,
    [Io (PWM_Duty_Cycle 0 0 250000) (Returns RNone);
     Io (PWM_Period 0 0 500000) (Returns RNone)] = [] ++ evs /\
    forall n,
      (snd (pwm_registers 0 0 (firstn n evs) (1000000, 500000))
       <= fst (pwm_registers 0 0 (firstn n evs) (1000000, 500000)))%Z.
Proof.
  assert (Hrun : run (change_frequency healthy 2000)
                     (World (Make 0 0 1000 50 false) []) =
                 (Ok tt, World (Make 0 0 2000 50 false)
                           [Io (PWM_Duty_Cycle 0 0 250000) (Returns RNone);
                            Io (PWM_Period 0 0 500000) (Returns RNone)]))
    by (vm_compute; reflexivity).
  assert (Hold : period_ns 1000 = Ok 1000000%Z) by (vm_compute; reflexivity).
  apply (@change_frequency_keeps_duty_within_period healthy 2000
           (World (Make 0 0 1000 50 false) []) (Ok tt)
           (World (Make 0 0 2000 50 false)
              [Io (PWM_Duty_Cycle 0 0 250000) (Returns RNone);
               Io (PWM_Period 0 0 500000) (Returns RNone)])
           1000000 500000);
    [discriminate|discriminate|reflexivity|exact Hold|lia|exact Hrun].
Defined.

(** ** The object and the hardware *)

(** X12.  [change_frequency] updates the object all or nothing.  When it
    returns, both writes returned, the object holds the new frequency and
    nothing else of it changed, and neither frequency is zero.  When it
    raises, the object is as before, even if one of the writes was made;
    and when the new or the current frequency is zero it raises before
    anything is written. *)
Theorem change_frequency_all_or_nothing env f w r w' :
  run (change_frequency env f) w = (r, w') ->
  match r with
  | Ok _ =>
      st w' = Make (chip (st w)) (pin (st w)) f
                (duty_cycle_percent (st w)) (invert_polarity (st w)) /\
      ~ f == 0 /\ ~ frequency (st w) == 0 /\
      exists c1 v1 c2 v2,
        log w' = log w ++ [Io c1 (Returns v1); Io c2 (Returns v2)]
  | Raise e =>
      st w' = st w /\
      (f == 0 \/ frequency (st w) == 0 -> w' = w)
  end.
Proof.
  unfold change_frequency. unfold_m.
  assert (Hz : forall q P, period_ns q = Ok P -> ~ q == 0).
  { intros q P. unfold period_ns, true_div.
    destruct (Qeq_bool q 0) eqn:E; [discriminate|].
    intros _ Hq. apply Qeq_bool_iff in Hq. congruence. }
  destruct (period_ns f) as [P1|] eqn:Ep.
  2:{ intros [= <- <-]. auto. }
  destruct (duty_ns (duty_cycle_percent (st w)) P1) as [D1|] eqn:Ed.
  2:{ intros [= <- <-]. auto. }
  destruct (period_ns (frequency (st w))) as [P0|] eqn:Eo.
  2:{ intros [= <- <-]. auto. }
  pose proof (Hz _ _ Ep). pose proof (Hz _ _ Eo).
  destruct (P1 >? P0)%Z; intros H1; exec; cbn [st log];
    rewrite <- ?app_assoc; cbn [app];
    first [ split; [reflexivity|tauto]
          | split; [reflexivity|split; [assumption|split; [assumption|]]];
            do 4 eexists; reflexivity ].
Qed.

(** X12, witness: the second write fails. *)
Lemma change_frequency_all_or_nothing_witness :
  Make 0 0 1000 50 false = Make 0 0 1000 50 false /\
  (2000 == 0 \/ 1000 == 0 ->
   World (Make 0 0 1000 50 false)
     [Io (PWM_Duty_Cycle 0 0 250000) (Returns RNone);
      Io (PWM_Period 0 0 500000) (Raises (OSError 5))]
   = World (Make 0 0 1000 50 false) []).
Proof.
  assert (Hrun : run (change_frequency
                        (scripted [Returns RNone; Raises (OSError 5)]) 2000)
                     (World (Make 0 0 1000 50 false) []) =
                 (Raise (OSError 5),
                  World (Make 0 0 1000 50 false)
                    [Io (PWM_Duty_Cycle 0 0 250000) (Returns RNone);
                     Io (PWM_Period 0 0 500000) (Raises (OSError 5))]))
    by (vm_compute; reflexivity).
  exact (@change_frequency_all_or_nothing
           (scripted [Returns RNone; Raises (OSError 5)]) 2000
           (World (Make 0 0 1000 50 false) []) _ _ Hrun).
Defined.

(** X13.  [stop_pwm] and [start_pwm] go by the object's percentage, which
    [duty_cycle] sets before it writes.  After [duty_cycle(p)] with [p] in
    range, [stop_pwm] writes 0 and [start_pwm] writes [p] again, whether or
    not any of the three writes raised; with [p] out of range [duty_cycle]
    raises with nothing done, and [start_pwm] writes the percentage the
    object had. *)
Theorem stop_start_restores_duty env p w r1 w1 r2 w2 r3 w3 :
  run (duty_cycle env p) w = (r1, w1) ->
  run (stop_pwm env) w1 = (r2, w2) ->
  run (start_pwm env) w2 = (r3, w3) ->
  (0 <= p /\ p <= 100 ->
   st w3 = Make (chip (st w)) (pin (st w)) (frequency (st w)) p
             (invert_polarity (st w)) /\
   calls_of (log w3) =
     calls_of (log w) ++
       [PWM_Duty_Cycle_Percent (chip (st w)) (pin (st w)) p;
        PWM_Duty_Cycle_Percent (chip (st w)) (pin (st w)) 0;
        PWM_Duty_Cycle_Percent (chip (st w)) (pin (st w)) p]) /\
  (~ (0 <= p /\ p <= 100) ->
   r1 = Raise (DutyCycleOutOfBounds p) /\ w1 = w /\ st w3 = st w /\
   calls_of (log w3) =
     calls_of (log w) ++
       [PWM_Duty_Cycle_Percent (chip (st w)) (pin (st w)) 0;
        PWM_Duty_Cycle_Percent (chip (st w)) (pin (st w))
          (duty_cycle_percent (st w))]).
Proof.
  unfold duty_cycle, stop_pwm, start_pwm. unfold_m.
  intros H1 H2 H3.
  destruct (Qle_bool 0 p) eqn:E0; [destruct (Qle_bool p 100) eqn:E100|];
    cbn [andb] in H1.
  - split; [intros _|intros N; exfalso; apply N; split; now apply Qle_bool_iff].
    exec; cbn [st log chip pin duty_cycle_percent];
      (split; [reflexivity|]);
      rewrite !calls_of_app; cbn [calls_of io_history map fst];
      rewrite <- ?app_assoc; reflexivity.
  - split; [intros [_ Hp]; apply Qle_bool_iff in Hp; congruence|intros _].
    exec; (split; [reflexivity|split; [reflexivity|split; [reflexivity|]]]);
      rewrite !calls_of_app; cbn [calls_of io_history map fst];
      rewrite <- ?app_assoc; reflexivity.
  - split; [intros [Hp _]; apply Qle_bool_iff in Hp; congruence|intros _].
    exec; (split; [reflexivity|split; [reflexivity|split; [reflexivity|]]]);
      rewrite !calls_of_app; cbn [calls_of io_history map fst];
      rewrite <- ?app_assoc; reflexivity.
Qed.

(** X13, witness: [duty_cycle(30)] whose write fails. *)
Lemma stop_start_restores_duty_witness :
  (0 <= 30 /\ 30 <= 100 ->
   Make 0 0 1000 30 false = Make 0 0 1000 30 false /\
   calls_of
     [Io (PWM_Duty_Cycle_Percent 0 0 30) (Raises (OSError 5));
      Io (PWM_Duty_Cycle_Percent 0 0 0) (Returns RNone);
      Io (PWM_Duty_Cycle_Percent 0 0 30) (Returns RNone)] =
     calls_of [] ++
       [PWM_Duty_Cycle_Percent 0 0 30; PWM_Duty_Cycle_Percent 0 0 0;
        PWM_Duty_Cycle_Percent 0 0 30]) /\
  (~ (0 <= 30 /\ 30 <= 100) ->
   @Raise retval (OSError 5) = Raise (DutyCycleOutOfBounds 30) /\
   World (Make 0 0 1000 30 false)
     [Io (PWM_Duty_Cycle_Percent 0 0 30) (Raises (OSError 5))]
   = World (Make 0 0 1000 50 false) [] /\
   Make 0 0 1000 30 false = Make 0 0 1000 50 false /\
   calls_of
     [Io (PWM_Duty_Cycle_Percent 0 0 30) (Raises (OSError 5));
      Io (PWM_Duty_Cycle_Percent 0 0 0) (Returns RNone);
      Io (PWM_Duty_Cycle_Percent 0 0 30) (Returns RNone)] =
     calls_of [] ++
       [PWM_Duty_Cycle_Percent 0 0 0; PWM_Duty_Cycle_Percent 0 0 50]).
Proof.
  exact (@stop_start_restores_duty (scripted [Raises (OSError 5)]) 30
           (World (Make 0 0 1000 50 false) [])
           (Raise (OSError 5))
           (World (Make 0 0 1000 30 false)
              [Io (PWM_Duty_Cycle_Percent 0 0 30) (Raises (OSError 5))])
           (Ok RNone)
           (World (Make 0 0 1000 30 false)
              [Io (PWM_Duty_Cycle_Percent 0 0 30) (Raises (OSError 5));
               Io (PWM_Duty_Cycle_Percent 0 0 0) (Returns RNone)])
           (Ok RNone)
           (World (Make 0 0 1000 30 false)
              [Io (PWM_Duty_Cycle_Percent 0 0 30) (Raises (OSError 5));
               Io (PWM_Duty_Cycle_Percent 0 0 0) (Returns RNone);
               Io (PWM_Duty_Cycle_Percent 0 0 30) (Returns RNone)])
           eq_refl eq_refl eq_refl).
Defined.

(** X14.  [__init__] checks no range: a percentage that [duty_cycle] refuses is
    accepted by the constructor, stored, and written by [start_pwm]. *)
Theorem pwm_init_accepts_any_duty env c p f d inv w self w1 r w2 :
  ~ (0 <= d /\ d <= 100) ->
  run (__init__ env c p f d inv) w = (Ok self, w1) ->
  run (start_pwm env) (World self (log w1)) = (r, w2) ->
  duty_cycle_percent self = d /\
  calls_of (log w2) = calls_of (log w1) ++ [PWM_Duty_Cycle_Percent c p d] /\
  run (duty_cycle env d) (World self (log w1)) =
    (Raise (DutyCycleOutOfBounds d), World self (log w1)).
Proof.
  intros Hd Hinit Hstart.
  assert (Hself : self = Make c p f d inv).
  { revert Hinit. unfold __init__, run, bind at 1.
    destruct (try_except_OSError _ _ w) as [[[]|] ?]; unfold ret, raise;
      congruence. }
  subst self. split; [reflexivity|]. split.
  - revert Hstart. unfold start_pwm. unfold_m.
    cbn [chip pin duty_cycle_percent]. intros H. exec;
      rewrite calls_of_app; reflexivity.
  - unfold duty_cycle. unfold_m.
    destruct (Qle_bool 0 d) eqn:E0; [destruct (Qle_bool d 100) eqn:E1|];
      try reflexivity.
    exfalso. apply Hd. split; now apply Qle_bool_iff.
Qed.

(** X14, witness: a duty cycle of 150. *)
Lemma pwm_init_accepts_any_duty_witness :
  150 = 150 /\
  calls_of
    [Io (PWM_Export 0 1) (Returns RNone);
     Io (PWM_Polarity 0 1 false) (Returns RNone);
     Io (PWM_Enable 0 1) (Returns RNone);
     Io (PWM_Frequency 0 1 1000) (Returns RNone);
     Io (PWM_Duty_Cycle_Percent 0 1 150) (Returns RNone)] =
    calls_of
      [Io (PWM_Export 0 1) (Returns RNone);
       Io (PWM_Polarity 0 1 false) (Returns RNone);
       Io (PWM_Enable 0 1) (Returns RNone);
       Io (PWM_Frequency 0 1 1000) (Returns RNone)] ++
    [PWM_Duty_Cycle_Percent 0 1 150] /\
  run (duty_cycle healthy 150)
    (World (Make 0 1 1000 150 false)
       [Io (PWM_Export 0 1) (Returns RNone);
        Io (PWM_Polarity 0 1 false) (Returns RNone);
        Io (PWM_Enable 0 1) (Returns RNone);
        Io (PWM_Frequency 0 1 1000) (Returns RNone)]) =
    (Raise (DutyCycleOutOfBounds 150),
     World (Make 0 1 1000 150 false)
       [Io (PWM_Export 0 1) (Returns RNone);
        Io (PWM_Polarity 0 1 false) (Returns RNone);
        Io (PWM_Enable 0 1) (Returns RNone);
        Io (PWM_Frequency 0 1 1000) (Returns RNone)]).
Proof.
  apply (@pwm_init_accepts_any_duty healthy 0 1 1000 150 false world_init
           (Make 0 1 1000 150 false)
           (World gpio_init
              [Io (PWM_Export 0 1) (Returns RNone);
               Io (PWM_Polarity 0 1 false) (Returns RNone);
               Io (PWM_Enable 0 1) (Returns RNone);
               Io (PWM_Frequency 0 1 1000) (Returns RNone)])
           (Ok RNone)
           (World (Make 0 1 1000 150 false)
              [Io (PWM_Export 0 1) (Returns RNone);
               Io (PWM_Polarity 0 1 false) (Returns RNone);
               Io (PWM_Enable 0 1) (Returns RNone);
               Io (PWM_Frequency 0 1 1000) (Returns RNone);
               Io (PWM_Duty_Cycle_Percent 0 1 150) (Returns RNone)])).
  - intros [_ H]. revert H. unfold Qle. cbn. lia.
  - reflexivity.
  - reflexivity.
Defined.

(** X15.  [pwm_polarity] disables the pin, writes the opposite of the
    constructor's polarity and enables the pin again, and never touches the
    object.  When it returns, the pin is enabled with that polarity.  When
    it raises, either the disabling itself failed and nothing else was
    called, or the pin is left disabled: no step re-enables it. *)
Theorem pwm_polarity_outcome env w r w' :
  run (pwm_polarity env) w = (r, w') ->
  st w' = st w /\
  exists evs,
    log w' = log w ++ evs /\
    match r with
    | Ok _ =>
        forall b0 p0,
          pwm_enabled (chip (st w)) (pin (st w)) evs b0 = true /\
          active_polarity (chip (st w)) (pin (st w)) evs p0
          = Some (negb (invert_polarity (st w)))
    | Raise e =>
        evs = [Io (PWM_Disable (chip (st w)) (pin (st w))) (Raises e)] \/
        forall b0, pwm_enabled (chip (st w)) (pin (st w)) evs b0 = false
    end.
Proof.
  unfold pwm_polarity. unfold_m. intros H.
  assert (Hsame : ((chip (st w) =? chip (st w)) && (pin (st w) =? pin (st w)))%Z%bool = true)
    by (now rewrite !Z.eqb_refl).
  exec; cbn [st log]; (split; [reflexivity|]);
    rewrite <- ?app_assoc; cbn [app];
    (eexists; split; [reflexivity|]).
  - intros b0 p0. cbn [pwm_enabled active_polarity]. rewrite !Hsame. auto.
  - right. intros b0. cbn [pwm_enabled]. rewrite !Hsame. reflexivity.
  - right. intros b0. cbn [pwm_enabled]. rewrite !Hsame. reflexivity.
  - left. reflexivity.
Qed.

(** X15, witness: the polarity write fails. *)
Lemma pwm_polarity_outcome_witness :
  Make 0 1 1000 50 false = Make 0 1 1000 50 false /\
  exists evs,
    [Io (PWM_Disable 0 1) (Returns RNone);
     Io (PWM_Polarity 0 1 true) (Raises (OSError 22))] = [] ++ evs /\
    (evs = [Io (PWM_Disable 0 1) (Raises (OSError 22))] \/
     forall b0, pwm_enabled 0 1 evs b0 = false).
Proof.
  exact (@pwm_polarity_outcome (scripted [Returns RNone; Raises (OSError 22)])
           (World (Make 0 1 1000 50 false) [])
           (Raise (OSError 22))
           (World (Make 0 1 1000 50 false)
              [Io (PWM_Disable 0 1) (Returns RNone);
               Io (PWM_Polarity 0 1 true) (Raises (OSError 22))])
           eq_refl).
Defined.

(** X16.  When [PWM(...)] returns an object, the module's globals are
    untouched and one of two things happened.  Either export, polarity,
    enable and frequency were called in this order and all returned (the
    last one [None]); or one of the four raised errno 16, in which case the
    warning was issued, the pin was unexported and exported again, and
    nothing was called after that: polarity, enable and frequency are not
    applied to the re-exported pin. *)
Theorem pwm_init_outcome env c p f d inv w self w' :
  run (__init__ env c p f d inv) w = (Ok self, w') ->
  self = Make c p f d inv /\
  st w' = st w /\
  ((exists v1 v2 v3,
      log w' = log w ++
        [Io (PWM_Export c p) (Returns v1);
         Io (PWM_Polarity c p inv) (Returns v2);
         Io (PWM_Enable c p) (Returns v3);
         Io (PWM_Frequency c p f) (Returns RNone)]) \/
   (exists done busy v1 v2,
      Forall (init_step_done c p inv) done /\
      log w' = log w ++ done ++
        [Io busy (Raises (OSError 16));
         Warn (PwmPinInUse p);
         Io (PWM_Unexport c p) (Returns v1);
         Io (PWM_Export c p) (Returns v2)])).
Proof.
  unfold __init__. unfold_m. intros H.
  assert (D1 : forall v, init_step_done c p inv (Io (PWM_Export c p) (Returns v)))
    by (intros v; exists v; auto).
  assert (D2 : forall v, init_step_done c p inv (Io (PWM_Polarity c p inv) (Returns v)))
    by (intros v; exists v; auto).
  assert (D3 : forall v, init_step_done c p inv (Io (PWM_Enable c p) (Returns v)))
    by (intros v; exists v; auto).
  destruct inv; exec; cbn [st log];
    (split; [reflexivity|split; [reflexivity|]]);
    rewrite <- ?app_assoc; cbn [app];
    first [left; do 3 eexists; reflexivity | right].
  all: match goal with
       | H : (_ =? 16)%Z = true |- _ => apply Z.eqb_eq in H; subst
       end.
  all: first
    [ exists []; do 3 eexists; split; [|reflexivity]; constructor
    | refine (ex_intro _ [_] _); do 3 eexists; split; [|reflexivity];
      repeat constructor; auto
    | refine (ex_intro _ [_; _] _); do 3 eexists; split; [|reflexivity];
      repeat constructor; auto
    | refine (ex_intro _ [_; _; _] _); do 3 eexists; split; [|reflexivity];
      repeat constructor; auto ].
Qed.

(** X16, witness: the polarity write finds the pin busy. *)
Lemma pwm_init_outcome_witness :
  Make 0 1 1000 50 true = Make 0 1 1000 50 true /\
  gpio_init = gpio_init /\
  ((exists v1 v2 v3,
      [Io (PWM_Export 0 1) (Returns RNone);
       Io (PWM_Polarity 0 1 true) (Raises (OSError 16));
       Warn (PwmPinInUse 1);
       Io (PWM_Unexport 0 1) (Returns RNone);
       Io (PWM_Export 0 1) (Returns RNone)] = [] ++
        [Io (PWM_Export 0 1) (Returns v1);
         Io (PWM_Polarity 0 1 true) (Returns v2);
         Io (PWM_Enable 0 1) (Returns v3);
         Io (PWM_Frequency 0 1 1000) (Returns RNone)]) \/
   (exists done busy v1 v2,
      Forall (init_step_done 0 1 true) done /\
      [Io (PWM_Export 0 1) (Returns RNone);
       Io (PWM_Polarity 0 1 true) (Raises (OSError 16));
       Warn (PwmPinInUse 1);
       Io (PWM_Unexport 0 1) (Returns RNone);
       Io (PWM_Export 0 1) (Returns RNone)] = [] ++ done ++
        [Io busy (Raises (OSError 16));
         Warn (PwmPinInUse 1);
         Io (PWM_Unexport 0 1) (Returns v1);
         Io (PWM_Export 0 1) (Returns v2)])).
Proof.
  exact (@pwm_init_outcome (scripted [Returns RNone; Raises (OSError 16)])
           0 1 1000 50 true world_init (Make 0 1 1000 50 true)
           (World gpio_init
              [Io (PWM_Export 0 1) (Returns RNone);
               Io (PWM_Polarity 0 1 true) (Raises (OSError 16));
               Warn (PwmPinInUse 1);
               Io (PWM_Unexport 0 1) (Returns RNone);
               Io (PWM_Export 0 1) (Returns RNone)])
           eq_refl).
Defined.

Close Scope Q_scope.
